(** * Acyclic causal relations among three ROIs

    A shallow embedding of [calc_acyclic_causal_rel_3x3]
    (4.make.causal.graphs.from.corr.py) and the properties of it that the
    specification states.

    Python floats and NumPy [float64] cells are binary64 numbers: they are
    modelled by Rocq's primitive [float], whose operations are the IEEE 754
    binary64 ones (round to nearest, ties to even).  NumPy [int] cells are
    64-bit integers: they are modelled in [Z] with the wrap-around of each
    operation written out.  Printing is modelled by a list of output lines
    that keep the printed label and the printed number, not the rendering of
    the number in decimal.

    The one operation that IEEE 754 does not fix is [R[ii,kk]**2]: on a
    [float64] scalar NumPy computes it with the C library's [pow], which need
    not return the correctly rounded square.  The function is therefore
    modelled for an arbitrary [sq : float -> float] that stands for
    [x -> pow(x, 2.0)]; a property that needs something of the library says
    so in a hypothesis on [sq]. *)

From Stdlib Require Import ZArith List String Bool Lia.
From Stdlib Require Import DecimalString.
From Stdlib Require Import Floats.
Import ListNotations.

Local Open Scope Z_scope.

(** ** Outcomes and output *)

(** What a call can end in: a value, [sys.exit(code)], or one of the
    exceptions the indexing and unpacking of the source can raise. *)
Inductive res (A : Type) : Type :=
| Ok (a : A)
| SysExit (code : Z)
| IndexError
| ValueError
| NameError.

Arguments Ok {A} a.
Arguments SysExit {A} code.
Arguments IndexError {A}.
Arguments ValueError {A}.
Arguments NameError {A}.

(** One call of [print].  The numbers are kept as numbers. *)
Inductive line : Type :=
| LRangeError (s : string) (r : float)
    (* "** ERROR: corr value s = r is outside allowed range [0.0, 1.0]" *)
| LText (s : string)
| LMatrixR (R : list (list float))
| LMatrixM (M : list (list Z))
| LIndices (i j k : Z)
| LDenom (d : float)
| LEdge (label : string) (value : float).
    (* "   label  : value" with the value shown to two decimals *)

(** A computation writes lines and ends in an outcome. *)
Definition prog (A : Type) : Type := (list line * res A)%type.

Definition ret {A} (a : A) : prog A := ([], Ok a).

Definition bind {A B} (m : prog A) (k : A -> prog B) : prog B :=
  match m with
  | (out, Ok a) => let (out', r) := k a in (out ++ out', r)
  | (out, SysExit c) => (out, SysExit c)
  | (out, IndexError) => (out, IndexError)
  | (out, ValueError) => (out, ValueError)
  | (out, NameError) => (out, NameError)
  end.

Definition print (l : line) : prog unit := ([l], Ok tt).
Definition sys_exit {A} (code : Z) : prog A := ([], SysExit code).
Definition lift {A} (r : res A) : prog A := ([], r).
Definition when (b : bool) (m : prog unit) : prog unit :=
  if b then m else ret tt.

Definition output {A} (m : prog A) : list line := fst m.
Definition outcome {A} (m : prog A) : res A := snd m.

Declare Scope prog_scope.
Delimit Scope prog_scope with prog.
Notation "x <- m ;; k" := (bind m (fun x => k))
  (at level 61, m at next level, right associativity) : prog_scope.
Notation "' p <- m ;; k" := (bind m (fun x => let 'p := x in k))
  (at level 61, p pattern, m at next level, right associativity) : prog_scope.
Notation "m ;; k" := (bind m (fun _ => k))
  (at level 61, right associativity) : prog_scope.
Local Open Scope prog_scope.

(** [for x in range(n): body], threading the values the body rebinds. *)
Definition range (n : Z) : list Z := map Z.of_nat (seq 0 (Z.to_nat n)).

Fixpoint for_each {St : Type} (xs : list Z) (body : Z -> St -> prog St)
    (st : St) : prog St :=
  match xs with
  | [] => ret st
  | x :: xs' => st' <- body x st ;; for_each xs' body st'
  end.

(** ** Lists and arrays indexed the Python way *)

(** An index [i] into a sequence of length [len]: negative indices count from
    the end, anything else out of range raises [IndexError]. *)
Definition norm_index (len : nat) (i : Z) : option nat :=
  if (0 <=? i) && (i <? Z.of_nat len) then Some (Z.to_nat i)
  else if (- Z.of_nat len <=? i) && (i <? 0) then Some (Z.to_nat (i + Z.of_nat len))
  else None.

Fixpoint replace_nth {A} (l : list A) (n : nat) (v : A) : list A :=
  match l, n with
  | [], _ => []
  | _ :: t, O => v :: t
  | h :: t, S n' => h :: replace_nth t n' v
  end.

Definition index {A} (l : list A) (i : Z) : res A :=
  match norm_index (List.length l) i with
  | Some n => match nth_error l n with Some a => Ok a | None => IndexError end
  | None => IndexError
  end.

Definition store {A} (l : list A) (i : Z) (v : A) : res (list A) :=
  match norm_index (List.length l) i with
  | Some n => Ok (replace_nth l n v)
  | None => IndexError
  end.

Definition rbind {A B} (r : res A) (k : A -> res B) : res B :=
  match r with
  | Ok a => k a
  | SysExit c => SysExit c
  | IndexError => IndexError
  | ValueError => ValueError
  | NameError => NameError
  end.

Definition matrix (A : Type) : Type := list (list A).
Definition tensor (A : Type) : Type := list (list (list A)).

Definition zeros2 {A} (zero : A) (n m : Z) : matrix A :=
  repeat (repeat zero (Z.to_nat m)) (Z.to_nat n).
Definition zeros3 {A} (zero : A) (p n m : Z) : tensor A :=
  repeat (zeros2 zero n m) (Z.to_nat p).

(** [A[i,j]] and [A[i,j] = v] *)
Definition get2 {A} (a : matrix A) (i j : Z) : res A :=
  rbind (index a i) (fun row => index row j).
Definition set2 {A} (a : matrix A) (i j : Z) (v : A) : res (matrix A) :=
  rbind (index a i) (fun row =>
  rbind (store row j v) (fun row' => store a i row')).

(** [A[p,i,j]] and [A[p,i,j] = v] *)
Definition get3 {A} (a : tensor A) (p i j : Z) : res A :=
  rbind (index a p) (fun m => get2 m i j).
Definition set3 {A} (a : tensor A) (p i j : Z) (v : A) : res (tensor A) :=
  rbind (index a p) (fun m =>
  rbind (set2 m i j v) (fun m' => store a p m')).

(** ** 64-bit integer cells *)

Definition wrap64 (z : Z) : Z := (z + 2 ^ 63) mod 2 ^ 64 - 2 ^ 63.
Definition i64_add (a b : Z) : Z := wrap64 (a + b).
Definition i64_sub (a b : Z) : Z := wrap64 (a - b).
Definition i64_mul (a b : Z) : Z := wrap64 (a * b).

(** ** Formatting *)

Definition str_of_int (z : Z) : string := NilZero.string_of_int (Z.to_int z).

(** ["roi_{} -> roi_{}".format(a, b)] *)
Definition roi_label (a b : Z) : string :=
  ("roi_" ++ str_of_int a ++ " -> roi_" ++ str_of_int b)%string.

(** ** The function *)

Section Power.

(** [x**2] on a [float64] scalar, line 139: the C library's [pow(x, 2.0)],
    whatever the library. *)
Variable sq : float -> float.

(** A value of the returned list: a label or a number. *)
Inductive pyval : Type :=
| VStr (s : string)
| VNum (x : float).

(** [np.abs(r) > 1.0] *)
Definition out_of_range (r : float) : bool := (1 <? abs r)%float.

(** Truth value of a [float64] in [if denom :]: anything but a zero. *)
Definition truthy (x : float) : bool := negb (x =? 0)%float.

(** Lines 66-75: the range check on the three inputs, in the order
    [r13], [r23], [r12]. *)
Definition check_range (r13 r23 r12 : float) : prog unit :=
  let all_r := [r13; r23; r12] in
  let all_s := ["r13"; "r23"; "r12"]%string in
  for_each (range (Z.of_nat (List.length all_r)))
    (fun ii _ =>
       r <- lift (index all_r ii) ;;
       s <- lift (index all_s ii) ;;
       if out_of_range r
       then print (LRangeError s r) ;; sys_exit (-1)
       else ret tt)
    tt.

(** Lines 83-86: the matrix [R] of the observed correlations.  A chained
    assignment stores into its targets from left to right. *)
Definition assemble_R (N : Z) (r13 r23 r12 : float) : res (matrix float) :=
  let R := zeros2 0%float N N in
  rbind (set2 R 0 1 r12) (fun R =>
  rbind (set2 R 1 0 r12) (fun R =>
  rbind (set2 R 1 2 r23) (fun R =>
  rbind (set2 R 2 1 r23) (fun R =>
  rbind (set2 R 0 2 r13) (fun R =>
         set2 R 2 0 r13))))).

(** Lines 106-110: the two matrices of permuted indices and the labels. *)
Definition perm_submatrices (N : Z)
    (st : matrix Z * matrix Z * matrix string)
  : prog (matrix Z * matrix Z * matrix string) :=
  for_each (range N)
    (fun ii st =>
       for_each (range N)
         (fun jj '(M1, M2, S_) =>
            c1 <- lift (get2 M1 ii jj) ;;
            M1 <- lift (set2 M1 ii jj (i64_add c1 ((jj + ii * 2) mod N))) ;;
            c2 <- lift (get2 M2 jj ii) ;;
            M2 <- lift (set2 M2 jj ii (i64_add c2 ((jj + ii * 2) mod N))) ;;
            S_ <- lift (set2 S_ ii jj (roi_label (ii + 1) (jj + 1))) ;;
            ret (M1, M2, S_))
         st)
    st.

(** Lines 113-118: the table [M] of the six permutations. *)
Definition perm_table (N : Z) (M1 M2 M : matrix Z) : prog (matrix Z) :=
  for_each (range N)
    (fun ii M =>
       for_each (range N)
         (fun jj M =>
            a0 <- lift (get2 M1 ii 0) ;;
            a2 <- lift (get2 M1 ii 2) ;;
            let aa := i64_mul (i64_sub (i64_add a0 a2) 1) (N - 1) in
            b0 <- lift (get2 M2 ii 0) ;;
            b2 <- lift (get2 M2 ii 2) ;;
            let bb := i64_add (i64_mul (i64_sub (i64_add b0 b2) 1) (N - 1)) 1 in
            v1 <- lift (get2 M1 ii jj) ;;
            M <- lift (set2 M aa jj v1) ;;
            v2 <- lift (get2 M2 ii jj) ;;
            lift (set2 M bb jj v2))
         M)
    M.

(** [ii,jj,kk = M[pp,:]] *)
Definition unpack3 (row : list Z) : res (Z * Z * Z) :=
  match row with
  | [i; j; k] => Ok (i, j, k)
  | _ => ValueError
  end.

(** The variables the last loop leaves bound: [pp], [ii], [jj], [kk]. *)
Definition bound_vars : Type := option (Z * Z * Z * Z).

(** Lines 127-156: the body of the loop over the permutations. *)
Definition edge_body (verb : bool) (R : matrix float) (M : matrix Z)
    (S_ : matrix string) (pp : Z) (st : tensor float * bound_vars)
  : prog (tensor float * bound_vars) :=
  let '(C, _) := st in
  row <- lift (index M pp) ;;
  '(ii, jj, kk) <- lift (unpack3 row) ;;
  when verb (print (LIndices ii jj kk)) ;;
  r_ik <- lift (get2 R ii kk) ;;
  C <- lift (set3 C pp ii kk r_ik) ;;
  r_ik <- lift (get2 R ii kk) ;;
  let denom := (1 - sq r_ik)%float in
  when verb (print (LDenom denom)) ;;
  C <- (if truthy denom then
          r_ij <- lift (get2 R ii jj) ;;
          r_ik <- lift (get2 R ii kk) ;;
          r_kj <- lift (get2 R kk jj) ;;
          C <- lift (set3 C pp ii jj ((r_ij - r_ik * r_kj) / denom)%float) ;;
          r_kj <- lift (get2 R kk jj) ;;
          r_ik <- lift (get2 R ii kk) ;;
          r_ij <- lift (get2 R ii jj) ;;
          lift (set3 C pp kk jj ((r_kj - r_ik * r_ij) / denom)%float)
        else
          C <- lift (set3 C pp ii jj 0%float) ;;
          lift (set3 C pp kk jj 0%float)) ;;
  print (LText EmptyString) ;;
  s1 <- lift (get2 S_ ii kk) ;; c1 <- lift (get3 C pp ii kk) ;;
  print (LEdge s1 c1) ;;
  s2 <- lift (get2 S_ ii jj) ;; c2 <- lift (get3 C pp ii jj) ;;
  print (LEdge s2 c2) ;;
  s3 <- lift (get2 S_ kk jj) ;; c3 <- lift (get3 C pp kk jj) ;;
  print (LEdge s3 c3) ;;
  ret (C, Some (pp, ii, jj, kk)).

Definition edge_loop (verb : bool) (P : Z) (R : matrix float) (M : matrix Z)
    (S_ : matrix string) (C : tensor float) : prog (tensor float * bound_vars) :=
  for_each (range P) (edge_body verb R M S_) (C, None).

(** Lines 159-161: the returned list, read with the variables the loop left. *)
Definition return_list (S_ : matrix string) (C : tensor float)
    (vars : bound_vars) : res (list pyval) :=
  match vars with
  | None => NameError
  | Some (pp, ii, jj, kk) =>
      rbind (get2 S_ ii kk) (fun s1 =>
      rbind (get2 S_ ii jj) (fun s2 =>
      rbind (get2 S_ kk jj) (fun s3 =>
      rbind (get3 C pp ii kk) (fun c1 =>
      rbind (get3 C pp ii jj) (fun c2 =>
      rbind (get3 C pp kk jj) (fun c3 =>
        Ok [VStr s1; VStr s2; VStr s3; VNum c1; VNum c2; VNum c3]))))))
  end.

(** Everything the function has built when it reaches its [return]. *)
Record workspace : Type := {
  ws_R : matrix float;
  ws_M1 : matrix Z;
  ws_M2 : matrix Z;
  ws_M : matrix Z;
  ws_S : matrix string;
  ws_C : tensor float;
  ws_vars : bound_vars
}.

(** Lines 66-156: the function up to its [return] statement. *)
Definition build (r13 r23 r12 : float) (verb : bool) : prog workspace :=
  check_range r13 r23 r12 ;;
  let N := 3 in
  let P := 2 * N in
  R <- lift (assemble_R N r13 r23 r12) ;;
  when verb (print (LText "++ R:") ;; print (LMatrixR R)) ;;
  let M1 := zeros2 0 N N in
  let M2 := zeros2 0 N N in
  let M := zeros2 0 P N in
  let S_ := zeros2 "[]"%string N N in
  let C := zeros3 0%float P N N in
  '(M1, M2, S_) <- perm_submatrices N (M1, M2, S_) ;;
  M <- perm_table N M1 M2 M ;;
  when verb (print (LText "++ M:") ;; print (LMatrixM M)) ;;
  '(C, vars) <- edge_loop verb P R M S_ C ;;
  ret {| ws_R := R; ws_M1 := M1; ws_M2 := M2; ws_M := M; ws_S := S_;
         ws_C := C; ws_vars := vars |}.

Definition calc_acyclic_causal_rel_3x3 (r13 r23 r12 : float) (verb : bool)
  : prog (list pyval) :=
  w <- build r13 r23 r12 verb ;;
  lift (return_list (ws_S w) (ws_C w) (ws_vars w)).

(** The labels and the numbers of a returned list. *)
Definition labels_of (l : list pyval) : list string :=
  flat_map (fun v => match v with VStr s => [s] | VNum _ => [] end) l.
Definition values_of (l : list pyval) : list float :=
  flat_map (fun v => match v with VStr _ => [] | VNum x => [x] end) l.

(** ** Closed forms of what the function builds *)

(** The derived edge of one permutation, from [R[i,j]], [R[i,k]] and
    [R[k,j]] (lines 139-150); the other derived edge is
    [deconf R[k,j] R[i,k] R[i,j]]. *)
Definition deconf (r_ij r_ik r_kj : float) : float :=
  let denom := (1 - sq r_ik)%float in
  if truthy denom then ((r_ij - r_ik * r_kj) / denom)%float else 0%float.

Definition R_closed (r13 r23 r12 : float) : matrix float :=
  [[0; r12; r13]; [r12; 0; r23]; [r13; r23; 0]]%float.

Definition M1_closed : matrix Z := [[0; 1; 2]; [2; 0; 1]; [1; 2; 0]].
Definition M2_closed : matrix Z := [[0; 2; 1]; [1; 0; 2]; [2; 1; 0]].
Definition M_closed : matrix Z :=
  [[1; 2; 0]; [0; 2; 1]; [0; 1; 2]; [2; 1; 0]; [2; 0; 1]; [1; 0; 2]].

Definition S_closed : matrix string :=
  [["roi_1 -> roi_1"; "roi_1 -> roi_2"; "roi_1 -> roi_3"];
   ["roi_2 -> roi_1"; "roi_2 -> roi_2"; "roi_2 -> roi_3"];
   ["roi_3 -> roi_1"; "roi_3 -> roi_2"; "roi_3 -> roi_3"]]%string.

(** The 3x3 slice of [C] that the permutation [(i,j,k)] fills. *)
Definition slice_closed (r13 r23 r12 : float) (i j k : nat) : matrix float :=
  let R a b := nth b (nth a (R_closed r13 r23 r12) []) 0%float in
  let z := repeat (repeat 0%float 3) 3 in
  let put m a b v := replace_nth m a (replace_nth (nth a m []) b v) in
  put (put (put z i k (R i k))
         i j (deconf (R i j) (R i k) (R k j)))
    k j (deconf (R k j) (R i k) (R i j)).

Definition C_closed (r13 r23 r12 : float) : tensor float :=
  [slice_closed r13 r23 r12 1 2 0; slice_closed r13 r23 r12 0 2 1;
   slice_closed r13 r23 r12 0 1 2; slice_closed r13 r23 r12 2 1 0;
   slice_closed r13 r23 r12 2 0 1; slice_closed r13 r23 r12 1 0 2].

Definition ws_closed (r13 r23 r12 : float) : workspace :=
  {| ws_R := R_closed r13 r23 r12; ws_M1 := M1_closed; ws_M2 := M2_closed;
     ws_M := M_closed; ws_S := S_closed; ws_C := C_closed r13 r23 r12;
     ws_vars := Some (5, 1, 0, 2) |}.

(** What one turn of the loop prints for the permutation [(i, j, k)]. *)
Definition report_closed (verb : bool) (i j k : Z) (r_ij r_ik r_kj : float)
  : list line :=
  (if verb then [LIndices i j k; LDenom (1 - sq r_ik)] else []) ++
  [LText EmptyString;
   LEdge (roi_label (i + 1) (k + 1)) r_ik;
   LEdge (roi_label (i + 1) (j + 1)) (deconf r_ij r_ik r_kj);
   LEdge (roi_label (k + 1) (j + 1)) (deconf r_kj r_ik r_ij)].

(** Everything an accepted call prints. *)
Definition output_closed (r13 r23 r12 : float) (verb : bool) : list line :=
  (if verb then [LText "++ R:"; LMatrixR (R_closed r13 r23 r12);
                 LText "++ M:"; LMatrixM M_closed] else []) ++
  report_closed verb 1 2 0 r23 r12 r13 ++
  report_closed verb 0 2 1 r13 r12 r23 ++
  report_closed verb 0 1 2 r12 r13 r23 ++
  report_closed verb 2 1 0 r23 r13 r12 ++
  report_closed verb 2 0 1 r13 r23 r12 ++
  report_closed verb 1 0 2 r12 r23 r13.

End Power.

(** ** Bounds on binary64 numbers *)

(** Whether the bits shifted out of a record are not all zero. *)
Definition sticky (mrs : shr_record) : Z :=
  if shr_r mrs || shr_s mrs then 1 else 0.

(** [upper Bm Be mrs e]: the value held at exponent [e], rounded up when it is
    not exact, is at most [Bm * 2^Be]. *)
Definition upper (Bm Be : Z) (mrs : shr_record) (e : Z) : Prop :=
  0 <= shr_m mrs /\
  (e <= Be -> shr_m mrs + sticky mrs <= Bm * 2 ^ (Be - e)).

(** [lower L mrs e]: the value held at exponent [e] is at least [2^L]. *)
Definition lower (L : Z) (mrs : shr_record) (e : Z) : Prop :=
  0 <= shr_m mrs /\ 2 ^ (L - e) <= shr_m mrs.

(** Whether a location is off the exact value. *)
Definition inexact (l : location) : Z :=
  match l with loc_Exact => 0 | loc_Inexact _ => 1 end.

(** [SF_le Bm Be x]: [x] is a zero or a finite number and [|x| <= Bm * 2^Be]. *)
Definition SF_le (Bm Be : Z) (x : spec_float) : Prop :=
  match x with
  | S754_zero _ => True
  | S754_finite _ m e => e <= Be /\ Z.pos m <= Bm * 2 ^ (Be - e)
  | _ => False
  end.

(** [SF_ge L x]: [x] is a finite number, not a zero, and [2^L <= |x|]. *)
Definition SF_ge (L : Z) (x : spec_float) : Prop :=
  match x with
  | S754_finite _ m e => 2 ^ (L - e) <= Z.pos m
  | _ => False
  end.

(** The sign bit. *)
Definition SF_sign (x : spec_float) : bool :=
  match x with
  | S754_zero s | S754_infinity s | S754_finite s _ _ => s
  | S754_nan => false
  end.

(** The numbers of magnitude at most [1 - 2^-53], the largest below [1]. *)
Definition SF_below_one (x : spec_float) : Prop := SF_le (2 ^ 53 - 1) (-53) x.

(** The number [1.0]. *)
Definition SF_one : spec_float := S754_finite false 4503599627370496 (-52).

(** [abs(r) <= 1.0] *)
Definition in_unit (r : float) : bool := (abs r <=? 1)%float.

(** ** What a property may ask of the library's square *)

(** A library whose [pow(x, 2.0)] is the correctly rounded square. *)
Definition rounded_square (x : float) : float := (x * x)%float.

(** The exact value [m * 2^e] of a binary64 number that is neither an
    infinity nor a NaN, as the pair [(m, e)]. *)
Definition dyadic : Type := (Z * Z)%type.

Definition exact_value (x : float) : option dyadic :=
  match Prim2SF x with
  | S754_zero _ => Some (0, 0)
  | S754_finite s m e => Some (if s then Z.neg m else Z.pos m, e)
  | _ => None
  end.

(** [a <= b] and [a * a] on exact values, in integer arithmetic. *)
Definition dyadic_le (a b : dyadic) : bool :=
  let e := Z.min (snd a) (snd b) in
  fst a * 2 ^ (snd a - e) <=? fst b * 2 ^ (snd b - e).

Definition dyadic_square (a : dyadic) : dyadic := (fst a * fst a, 2 * snd a).

(** [s] is the exact square of [x] rounded to one of the binary64 numbers
    next to it (an error under one unit in the last place): every binary64
    number at or below the exact square is at or below [s], and every one at
    or above it is at or above [s].  When the exact square is a binary64
    number, [s] is that number. *)
Definition faithful_square (x s : float) : Prop :=
  exists vx vs, exact_value x = Some vx /\ exact_value s = Some vs /\
    forall z vz, exact_value z = Some vz ->
      (dyadic_le vz (dyadic_square vx) = true -> dyadic_le vz vs = true) /\
      (dyadic_le (dyadic_square vx) vz = true -> dyadic_le vs vz = true).

(** A check that decides it for a positive [s = m * 2^e] that is not a power
    of two: the exact square is [s], or lies strictly between
    [(m - 1) * 2^e] and [(m + 1) * 2^e]. *)
Definition faithful_check (x s : float) : bool :=
  match exact_value x, Prim2SF s with
  | Some vx, S754_finite false m e =>
      let v := dyadic_square vx in
      (dyadic_le v (Z.pos m, e) && dyadic_le (Z.pos m, e) v) ||
      ((2 ^ 52 <? Z.pos m) && negb (dyadic_le v (Z.pos m - 1, e)) &&
       negb (dyadic_le (Z.pos m + 1, e) v))
  | _, _ => false
  end.

(** The library's square of each of the three inputs is a number, not a
    NaN. *)
Definition sq_defined (sq : float -> float) (r13 r23 r12 : float) : Prop :=
  is_nan (sq r13) = false /\ is_nan (sq r23) = false /\
  is_nan (sq r12) = false.

(** The library's square of each of the three inputs is a faithful one. *)
Definition sq_faithful (sq : float -> float) (r13 r23 r12 : float) : Prop :=
  faithful_square r13 (sq r13) /\ faithful_square r23 (sq r23) /\
  faithful_square r12 (sq r12).

(** ** Vocabulary of the specification *)

(** The three inputs lie in [[-1, 1]]. *)
Definition valid_input (r13 r23 r12 : float) : Prop :=
  in_unit r13 = true /\ in_unit r23 = true /\ in_unit r12 = true.

(** None of the three inputs trips the range check of lines 66-75.  Every
    valid input is accepted ([valid_accepted] below). *)
Definition accepted (r13 r23 r12 : float) : Prop :=
  out_of_range r13 = false /\ out_of_range r23 = false /\
  out_of_range r12 = false.

(** Row [pp] of a table of indices, read as the triple [(i, j, k)]. *)
Definition permutation (M : matrix Z) (pp : Z) : res (Z * Z * Z) :=
  rbind (index M pp) unpack3.

(** The rows of a table that are triples. *)
Definition triples (M : matrix Z) : list (Z * Z * Z) :=
  flat_map (fun row => match unpack3 row with Ok t => [t] | _ => [] end) M.

(** [(i, j, k)] has giver [a] and bridge [b]. *)
Definition giver_bridge (a b : Z) (t : Z * Z * Z) : bool :=
  let '(i, _, k) := t in (i =? a) && (k =? b).

(** How many triples have [a] and [b] as giver and bridge in that order, and
    in either order. *)
Definition directed_count (a b : Z) (ts : list (Z * Z * Z)) : nat :=
  List.length (filter (giver_bridge a b) ts).
Definition pair_count (a b : Z) (ts : list (Z * Z * Z)) : nat :=
  List.length (filter (fun t => giver_bridge a b t || giver_bridge b a t) ts).

(** The three indices of a triple are pairwise distinct and lie in [0..2]. *)
Definition distinct_indices (t : Z * Z * Z) : Prop :=
  let '(i, j, k) := t in
  0 <= i < 3 /\ 0 <= j < 3 /\ 0 <= k < 3 /\ i <> j /\ i <> k /\ j <> k.

(** A line that reports an edge. *)
Definition is_edge_line (l : line) : bool :=
  match l with LEdge _ _ => true | _ => false end.

(** The inputs of the two examples of the source, lines 171-173 and 179-181:
    the binary64 numbers that the literals [0.6], [-0.5], [-0.05] and [0.8],
    [0.75], [0.6] denote. *)
Definition ex9B_r13 : float := 0x1.3333333333333p-1.
Definition ex9B_r23 : float := (-0x1p-1)%float.
Definition ex9B_r12 : float := (-0x1.999999999999ap-5)%float.
Definition ex9C_r13 : float := 0x1.999999999999ap-1.
Definition ex9C_r23 : float := 0x1.8p-1.
Definition ex9C_r12 : float := 0x1.3333333333333p-1.

(** ** Binary64 rounding: bounds that survive it *)

(** The specification of the floating-point operations is written with the
    core library's integer operations; [stdz] restates them with the standard
    library's, which [lia] knows. *)
Ltac stdz :=
  change IntDef.Z.add with Z.add in *;
  change IntDef.Z.sub with Z.sub in *;
  change IntDef.Z.mul with Z.mul in *;
  change IntDef.Z.opp with Z.opp in *;
  change IntDef.Z.max with Z.max in *;
  change IntDef.Z.min with Z.min in *;
  change IntDef.Z.leb with Z.leb in *;
  change IntDef.Z.ltb with Z.ltb in *;
  change IntDef.Z.eqb with Z.eqb in *;
  change IntDef.Z.compare with Z.compare in *;
  change IntDef.Z.even with Z.even in *;
  change IntDef.Z.shiftl with Z.shiftl in *;
  change IntDef.Z.div_eucl with Z.div_eucl in *;
  change PosDef.Pos.mul with Pos.mul in *;
  change PosDef.Pos.add with Pos.add in *;
  change PosDef.Pos.succ with Pos.succ in *;
  change @PosDef.Pos.iter with @Pos.iter in *;
  change PosDef.Pos.compare_cont with Pos.compare_cont in *.

Lemma fexp64 (e : Z) : fexp prec emax e = Z.max (e - 53) (-1074).
Proof. reflexivity. Qed.

Lemma pow2_split (a : Z) : 0 < a -> 2 ^ a = 2 * 2 ^ (a - 1).
Proof.
  intros Ha. replace a with (Z.succ (a - 1)) at 1 by lia.
  apply Z.pow_succ_r. lia.
Qed.

Lemma pow2_pos (a : Z) : 0 <= a -> 0 < 2 ^ a.
Proof. intros. apply Z.pow_pos_nonneg; lia. Qed.

Lemma pow2_nonneg (a : Z) : 0 <= 2 ^ a.
Proof. apply Z.pow_nonneg. lia. Qed.

Lemma pow2_le (a b : Z) : a <= b -> 2 ^ a <= 2 ^ b.
Proof.
  intros Hab. destruct (Z.le_gt_cases 0 a) as [Ha | Ha].
  - apply Z.pow_le_mono_r; lia.
  - rewrite (Z.pow_neg_r 2 a) by lia. apply pow2_nonneg.
Qed.

Lemma pow2_lt_inv (a b : Z) : 0 <= a -> 2 ^ a < 2 ^ b -> a < b.
Proof.
  intros Ha H. destruct (Z.lt_ge_cases a b) as [Hlt | Hge]; [exact Hlt|].
  pose proof (pow2_le b a Hge). lia.
Qed.

Lemma digits2_pos_bounds (m : positive) :
  2 ^ (Z.pos (digits2_pos m) - 1) <= Z.pos m < 2 ^ Z.pos (digits2_pos m).
Proof.
  induction m as [m IH | m IH |]; simpl digits2_pos.
  - rewrite Pos2Z.inj_succ.
    replace (Z.succ (Z.pos (digits2_pos m)) - 1) with (Z.pos (digits2_pos m)) by lia.
    rewrite Z.pow_succ_r by lia.
    rewrite (pow2_split (Z.pos (digits2_pos m))) in * by lia. lia.
  - rewrite Pos2Z.inj_succ.
    replace (Z.succ (Z.pos (digits2_pos m)) - 1) with (Z.pos (digits2_pos m)) by lia.
    rewrite Z.pow_succ_r by lia.
    rewrite (pow2_split (Z.pos (digits2_pos m))) in * by lia. lia.
  - simpl. lia.
Qed.

Lemma Zdigits2_nonneg (m : Z) : 0 <= Zdigits2 m.
Proof. destruct m; simpl; lia. Qed.

Lemma Zdigits2_bounds (m : Z) :
  0 < m -> 2 ^ (Zdigits2 m - 1) <= m < 2 ^ Zdigits2 m.
Proof.
  destruct m as [|p|p]; try lia. intros _. apply digits2_pos_bounds.
Qed.

(** *** Shifting right *)

Lemma shr_1_nonneg (mrs : shr_record) :
  0 <= shr_m mrs -> 0 <= shr_m (shr_1 mrs).
Proof.
  destruct mrs as [m r s]. destruct m as [|p|p]; simpl; try lia.
  intros _. destruct p; simpl; lia.
Qed.

Lemma shr_1_val (mrs : shr_record) :
  0 <= shr_m mrs ->
  exists b : Z, 0 <= b <= 1 /\ shr_m mrs = 2 * shr_m (shr_1 mrs) + b /\
    sticky (shr_1 mrs) <= b + sticky mrs.
Proof.
  destruct mrs as [m r s]. destruct m as [|p|p]; simpl; try lia.
  - intros _. exists 0. unfold sticky; simpl. destruct r, s; simpl; lia.
  - intros _. destruct p; unfold sticky; simpl.
    + exists 1. destruct r, s; simpl; lia.
    + exists 0. destruct r, s; simpl; lia.
    + exists 1. destruct r, s; simpl; lia.
Qed.

(** A property of the shifted record and its exponent that one shift keeps
    is kept by [iter_pos shr_1]. *)
Lemma iter_shr_1_inv (P : shr_record -> Z -> Prop) :
  (forall mrs e, P mrs e -> P (shr_1 mrs) (e + 1)) ->
  forall (p : positive) mrs e,
    P mrs e -> P (iter_pos shr_1 p mrs) (e + Z.pos p).
Proof.
  intros Hstep. induction p as [p IH | p IH |]; intros mrs e H; simpl.
  - replace (e + Z.pos p~1) with (e + 1 + Z.pos p + Z.pos p) by lia.
    apply IH, IH, Hstep, H.
  - replace (e + Z.pos p~0) with (e + Z.pos p + Z.pos p) by lia.
    apply IH, IH, H.
  - apply Hstep, H.
Qed.

Lemma upper_step (Bm Be : Z) (mrs : shr_record) (e : Z) :
  upper Bm Be mrs e -> upper Bm Be (shr_1 mrs) (e + 1).
Proof.
  intros [Hm Hb]. split; [apply shr_1_nonneg, Hm|].
  intros He. specialize (Hb ltac:(lia)).
  destruct (shr_1_val mrs Hm) as (b & Hb01 & Hval & Hst).
  rewrite (pow2_split (Be - e)) in Hb by lia.
  replace (Be - e - 1) with (Be - (e + 1)) in Hb by lia.
  set (Y := Bm * 2 ^ (Be - (e + 1))).
  replace (Bm * (2 * 2 ^ (Be - (e + 1)))) with (2 * Y) in Hb by (unfold Y; ring).
  assert (Hs' : 0 <= sticky (shr_1 mrs) <= 1)
    by (unfold sticky; destruct (_ || _); lia).
  lia.
Qed.

Lemma lower_step (L : Z) (mrs : shr_record) (e : Z) :
  lower L mrs e -> lower L (shr_1 mrs) (e + 1).
Proof.
  intros [Hm Hb]. pose proof (shr_1_nonneg mrs Hm) as Hm'. split; [exact Hm'|].
  destruct (shr_1_val mrs Hm) as (b & Hb01 & Hval & _).
  destruct (Z.lt_ge_cases (L - (e + 1)) 0) as [Hneg | Hpos].
  - rewrite Z.pow_neg_r by lia. exact Hm'.
  - rewrite (pow2_split (L - e)) in Hb by lia.
    replace (L - e - 1) with (L - (e + 1)) in Hb by lia. lia.
Qed.

Lemma shr_inv (P : shr_record -> Z -> Prop) :
  (forall mrs e, P mrs e -> P (shr_1 mrs) (e + 1)) ->
  forall mrs e n, P mrs e -> P (fst (shr mrs e n)) (snd (shr mrs e n)).
Proof.
  intros Hstep mrs e n H. destruct n; simpl; auto.
  apply iter_shr_1_inv; auto.
Qed.

Lemma shr_exp (mrs : shr_record) (e n : Z) :
  snd (shr mrs e n) = e + Z.max 0 n.
Proof. destruct n; simpl; lia. Qed.

Lemma sticky_of_loc (m : Z) (l : location) :
  shr_m (shr_record_of_loc m l) = m /\
  sticky (shr_record_of_loc m l) = inexact l.
Proof. destruct l as [|[| |]]; split; reflexivity. Qed.

Lemma shr_fexp_exp (m e : Z) (l : location) :
  snd (shr_fexp prec emax m e l) = Z.max e (Z.max (Zdigits2 m + e - 53) (-1074)).
Proof. unfold shr_fexp. rewrite shr_exp, fexp64. stdz. lia. Qed.

Lemma round_nearest_even_bounds (mrs : shr_record) :
  shr_m mrs <= round_nearest_even (shr_m mrs) (loc_of_shr_record mrs)
            <= shr_m mrs + sticky mrs.
Proof.
  destruct mrs as [m r s]. unfold sticky. simpl.
  destruct r, s; simpl; try lia. destruct (Z.even m); lia.
Qed.

Section Upper.
Variables Bm Be : Z.
Hypothesis HBm : 0 < Bm < 2 ^ 53.
Hypothesis HBe : -1074 <= Be <= 971.

Lemma shr_fexp_upper (m e : Z) (l : location) :
  0 <= m -> e <= Be -> m + inexact l <= Bm * 2 ^ (Be - e) ->
  upper Bm Be (fst (shr_fexp prec emax m e l)) (snd (shr_fexp prec emax m e l)) /\
  snd (shr_fexp prec emax m e l) <= Be.
Proof.
  intros Hm He Hb. split.
  - unfold shr_fexp. apply shr_inv; [apply upper_step|].
    destruct (sticky_of_loc m l) as [E1 E2].
    split; rewrite E1; [exact Hm|]. rewrite E2. intros _. exact Hb.
  - rewrite shr_fexp_exp.
    assert (Hd : Zdigits2 m + e - 53 <= Be).
    { destruct (Z.eq_dec m 0) as [-> | Hnz]; [simpl; lia|].
      assert (Hpos : 0 < m) by lia.
      pose proof (Zdigits2_bounds m Hpos) as [Hlo _].
      pose proof (pow2_pos (Be - e) ltac:(lia)) as HX.
      assert (Hi : 0 <= inexact l) by (destruct l; simpl; lia).
      assert (Hlt : 2 ^ (Zdigits2 m - 1) < 2 ^ (53 + (Be - e))).
      { rewrite Z.pow_add_r by lia. nia. }
      pose proof (Zdigits2_nonneg m).
      assert (0 < Zdigits2 m).
      { destruct m; simpl in *; lia. }
      apply pow2_lt_inv in Hlt; lia. }
    lia.
Qed.

Lemma binary_round_aux_upper (s : bool) (m e : Z) (l : location) :
  0 <= m -> e <= Be -> m + inexact l <= Bm * 2 ^ (Be - e) ->
  match binary_round_aux prec emax s m e l with
  | S754_zero s' => s' = s
  | S754_finite s' m' e' =>
      s' = s /\ e' <= Be /\ Z.pos m' <= Bm * 2 ^ (Be - e')
  | _ => False
  end.
Proof.
  intros Hm He Hb. unfold binary_round_aux.
  pose proof (shr_fexp_upper m e l Hm He Hb) as [[U1 U1'] E1].
  destruct (shr_fexp prec emax m e l) as [mrs1 e1]. simpl in U1, U1', E1.
  pose proof (round_nearest_even_bounds mrs1) as Hr.
  set (m2 := round_nearest_even (shr_m mrs1) (loc_of_shr_record mrs1)) in *.
  assert (H2 : m2 + inexact loc_Exact <= Bm * 2 ^ (Be - e1))
    by (specialize (U1' E1); simpl; lia).
  pose proof (shr_fexp_upper m2 e1 loc_Exact ltac:(lia) E1 H2) as [[U2 U2'] E2].
  destruct (shr_fexp prec emax m2 e1 loc_Exact) as [mrs2 e2].
  simpl in U2, U2', E2. specialize (U2' E2).
  assert (Hs : 0 <= sticky mrs2) by (unfold sticky; destruct (_ || _); lia).
  destruct (shr_m mrs2) as [|p|p]; [reflexivity| |lia].
  replace (e2 <=? emax - prec) with true
    by (symmetry; apply Z.leb_le; change (emax - prec) with 971; lia).
  repeat split; lia.
Qed.
End Upper.

Section Lower.
Variable L : Z.
Hypothesis HL : -1074 <= L.

Lemma shr_fexp_lower_at (T m e : Z) (l : location) :
  0 < m -> 2 ^ (T - e) <= m ->
  lower T (fst (shr_fexp prec emax m e l)) (snd (shr_fexp prec emax m e l)).
Proof.
  intros Hm Hb. unfold shr_fexp.
  apply (shr_inv (lower T)); [apply lower_step|].
  destruct (sticky_of_loc m l) as [E1 _]. split; rewrite E1; lia.
Qed.

Lemma shr_fexp_lower (m e : Z) (l : location) :
  0 < m -> 2 ^ (L - e) <= m ->
  lower L (fst (shr_fexp prec emax m e l)) (snd (shr_fexp prec emax m e l)) /\
  0 < shr_m (fst (shr_fexp prec emax m e l)).
Proof.
  intros Hm Hb.
  pose proof (shr_fexp_lower_at L m e l Hm Hb) as HL0.
  split; [exact HL0|].
  pose proof (shr_fexp_exp m e l) as He'.
  pose proof (fun T => shr_fexp_lower_at T m e l Hm) as Hall.
  set (e' := snd (shr_fexp prec emax m e l)) in *.
  destruct (Z.le_gt_cases e' L) as [Hle | Hgt].
  - destruct HL0 as [_ H]. pose proof (pow2_pos (L - e') ltac:(lia)). lia.
  - assert (Hl' : lower e' (fst (shr_fexp prec emax m e l)) e').
    { apply Hall.
      pose proof (Zdigits2_bounds m Hm) as [Hlo _].
      destruct (Z.le_gt_cases e' e) as [H1 | H1].
      + apply Z.le_trans with (2 ^ 0); [apply pow2_le; lia | simpl; lia].
      + apply Z.le_trans with (2 ^ (Zdigits2 m - 1)); [apply pow2_le; lia | exact Hlo]. }
    destruct Hl' as [_ H]. rewrite Z.sub_diag in H. simpl in H. lia.
Qed.

Lemma binary_round_aux_lower (s : bool) (m e : Z) (l : location) :
  0 < m -> 2 ^ (L - e) <= m ->
  match binary_round_aux prec emax s m e l with
  | S754_finite s' m' e' => s' = s /\ 2 ^ (L - e') <= Z.pos m'
  | S754_infinity _ => True
  | _ => False
  end.
Proof.
  intros Hm Hb. unfold binary_round_aux.
  pose proof (shr_fexp_lower m e l Hm Hb) as [[_ L1] P1].
  destruct (shr_fexp prec emax m e l) as [mrs1 e1]. simpl in L1, P1.
  pose proof (round_nearest_even_bounds mrs1) as Hr.
  set (m2 := round_nearest_even (shr_m mrs1) (loc_of_shr_record mrs1)) in *.
  pose proof (shr_fexp_lower m2 e1 loc_Exact ltac:(lia) ltac:(lia)) as [[_ L2] P2].
  destruct (shr_fexp prec emax m2 e1 loc_Exact) as [mrs2 e2].
  simpl in L2, P2.
  destruct (shr_m mrs2) as [|p|p]; [lia| |lia].
  destruct (e2 <=? emax - prec); [split; [reflexivity | exact L2] | exact I].
Qed.
End Lower.

(** *** Aligning to the left *)

Lemma iter_xO (d m : positive) : Z.pos (Pos.iter xO m d) = Z.pos m * 2 ^ Z.pos d.
Proof.
  change (Pos.iter xO m d) with (shift_pos d m).
  rewrite shift_pos_correct. change (Zpower_pos 2 d) with (2 ^ Z.pos d). lia.
Qed.

Lemma shl_align_spec (mx : positive) (ex ex' : Z) :
  snd (shl_align mx ex ex') <= ex /\
  Z.pos (fst (shl_align mx ex ex')) = Z.pos mx * 2 ^ (ex - snd (shl_align mx ex ex')).
Proof.
  unfold shl_align. stdz. destruct (ex' - ex) as [|d|d] eqn:E; cbn [fst snd].
  - rewrite Z.sub_diag. change (2 ^ 0) with 1. lia.
  - rewrite Z.sub_diag. change (2 ^ 0) with 1. lia.
  - rewrite iter_xO. replace (ex - ex') with (Z.pos d) by lia. lia.
Qed.

Lemma scale_le (m Bm Be e e' : Z) :
  e' <= e -> e <= Be -> m <= Bm * 2 ^ (Be - e) ->
  m * 2 ^ (e - e') <= Bm * 2 ^ (Be - e').
Proof.
  intros H1 H2 H. replace (Be - e') with ((Be - e) + (e - e')) by lia.
  rewrite Z.pow_add_r by lia.
  pose proof (pow2_pos (e - e') ltac:(lia)). nia.
Qed.

Lemma scale_ge (m L e e' : Z) :
  e' <= e -> 0 < m -> 2 ^ (L - e) <= m -> 2 ^ (L - e') <= m * 2 ^ (e - e').
Proof.
  intros H1 Hm H.
  pose proof (pow2_pos (e - e') ltac:(lia)) as Hp.
  destruct (Z.lt_ge_cases (L - e) 0) as [Hneg | Hpos].
  - apply Z.le_trans with (2 ^ (e - e')); [apply pow2_le; lia | nia].
  - replace (L - e') with ((L - e) + (e - e')) by lia.
    rewrite Z.pow_add_r by lia. nia.
Qed.

Lemma binary_round_upper (Bm Be : Z) (s : bool) (m : positive) (e : Z) :
  0 < Bm < 2 ^ 53 -> -1074 <= Be <= 971 ->
  e <= Be -> Z.pos m <= Bm * 2 ^ (Be - e) ->
  match binary_round prec emax s m e with
  | S754_zero s' => s' = s
  | S754_finite s' m' e' => s' = s /\ e' <= Be /\ Z.pos m' <= Bm * 2 ^ (Be - e')
  | _ => False
  end.
Proof.
  intros HBm HBe He Hb. unfold binary_round.
  pose proof (shl_align_spec m e (fexp prec emax (Z.pos (digits2_pos m) + e)))
    as [H1 H2].
  stdz.
  destruct (shl_align m e _) as [mz ez]. cbn [fst snd] in H1, H2.
  apply binary_round_aux_upper; try assumption; try lia.
  cbn [inexact]. rewrite Z.add_0_r, H2. apply scale_le; assumption.
Qed.

Lemma binary_round_lower (L : Z) (s : bool) (m : positive) (e : Z) :
  -1074 <= L -> 2 ^ (L - e) <= Z.pos m ->
  match binary_round prec emax s m e with
  | S754_finite s' m' e' => s' = s /\ 2 ^ (L - e') <= Z.pos m'
  | S754_infinity _ => True
  | _ => False
  end.
Proof.
  intros HL Hb. unfold binary_round.
  pose proof (shl_align_spec m e (fexp prec emax (Z.pos (digits2_pos m) + e)))
    as [H1 H2].
  stdz.
  destruct (shl_align m e _) as [mz ez]. cbn [fst snd] in H1, H2.
  apply binary_round_aux_lower; try assumption; try lia.
  rewrite H2. apply scale_ge; try assumption; lia.
Qed.

(** *** Bounds on the magnitude of a binary64 number *)

Lemma SF_le_mono (a b : Z) (x : spec_float) :
  a <= b -> SF_le 1 a x -> SF_le 1 b x.
Proof.
  intros Hab. destruct x as [s| s| |s m e]; cbn [SF_le]; auto.
  intros [He Hm]. split; [lia|].
  pose proof (pow2_le (a - e) (b - e) ltac:(lia)). lia.
Qed.

Lemma two53 : 2 ^ 53 = 9007199254740992.
Proof. reflexivity. Qed.

Lemma of_round_upper (Bm Be : Z) (s : bool) (x : spec_float) :
  match x with
  | S754_zero s' => s' = s
  | S754_finite s' m' e' => s' = s /\ e' <= Be /\ Z.pos m' <= Bm * 2 ^ (Be - e')
  | _ => False
  end -> SF_le Bm Be x /\ SF_sign x = s.
Proof. destruct x; cbn [SF_le SF_sign]; intuition. Qed.

Lemma SFmul_le (a b : Z) (x y : spec_float) :
  SF_le 1 a x -> SF_le 1 b y -> -1074 <= a + b <= 971 ->
  SF_le 1 (a + b) (SFmul prec emax x y).
Proof.
  intros Hx Hy Hab.
  destruct x as [sx|sx| |sx mx ex], y as [sy|sy| |sy my ey];
    cbn [SF_le] in Hx, Hy; try contradiction; try exact I.
  destruct Hx as [Hex Hmx], Hy as [Hey Hmy]. unfold SFmul. stdz.
  apply of_round_upper with (s := xorb sx sy).
  apply binary_round_aux_upper; try (rewrite two53; lia); try lia.
  cbn [inexact]. rewrite Z.add_0_r, Pos2Z.inj_mul.
  replace (a + b - (ex + ey)) with ((a - ex) + (b - ey)) by lia.
  rewrite Z.pow_add_r by lia.
  pose proof (pow2_pos (a - ex) ltac:(lia)).
  pose proof (pow2_pos (b - ey) ltac:(lia)). nia.
Qed.

Lemma shl_align_le (mx : positive) (ex ex' : Z) :
  ex' <= ex ->
  Z.pos (fst (shl_align mx ex ex')) = Z.pos mx * 2 ^ (ex - ex').
Proof.
  intros H. unfold shl_align. stdz.
  destruct (ex' - ex) as [|d|d] eqn:E; cbn [fst].
  - replace (ex - ex') with 0 by lia. change (2 ^ 0) with 1. lia.
  - lia.
  - rewrite iter_xO. replace (ex - ex') with (Z.pos d) by lia. lia.
Qed.

Lemma binary_normalize_upper (Bm Be z e : Z) (sz : bool) :
  0 < Bm < 2 ^ 53 -> -1074 <= Be <= 971 ->
  e <= Be -> Z.abs z <= Bm * 2 ^ (Be - e) ->
  SF_le Bm Be (binary_normalize prec emax z e sz).
Proof.
  intros HBm HBe He Hz. destruct z as [|p|p]; simpl binary_normalize.
  - exact I.
  - apply (of_round_upper Bm Be false).
    apply binary_round_upper; assumption.
  - apply (of_round_upper Bm Be true).
    apply binary_round_upper; assumption.
Qed.

Lemma cond_Zopp_abs (s : bool) (z : Z) : Z.abs (cond_Zopp s z) = Z.abs z.
Proof. destruct s; simpl; stdz; lia. Qed.

Lemma SFsub_le (a : Z) (x y : spec_float) :
  SF_le 1 a x -> SF_le 1 a y -> -1074 <= a + 1 <= 971 ->
  SF_le 1 (a + 1) (SFsub prec emax x y).
Proof.
  intros Hx Hy Ha.
  destruct x as [sx|sx| |sx mx ex], y as [sy|sy| |sy my ey];
    cbn [SF_le] in Hx, Hy; try contradiction.
  - simpl. destruct sx, sy; exact I.
  - apply (SF_le_mono a); [lia | exact Hy].
  - apply (SF_le_mono a); [lia | exact Hx].
  - destruct Hx as [Hex Hmx], Hy as [Hey Hmy]. unfold SFsub. stdz.
    set (ez := Z.min ex ey).
    apply binary_normalize_upper; try (rewrite two53; lia); try lia.
    rewrite !shl_align_le by lia.
    pose proof (scale_le (Z.pos mx) 1 a ex ez ltac:(lia) Hex Hmx) as H1.
    pose proof (scale_le (Z.pos my) 1 a ey ez ltac:(lia) Hey Hmy) as H2.
    replace (a + 1 - ez) with (1 + (a - ez)) by lia.
    rewrite Z.pow_add_r by lia. change (2 ^ 1) with 2.
    pose proof (cond_Zopp_abs sx (Z.pos mx * 2 ^ (ex - ez))).
    pose proof (cond_Zopp_abs sy (Z.pos my * 2 ^ (ey - ez))).
    pose proof (pow2_pos (ex - ez) ltac:(lia)).
    pose proof (pow2_pos (ey - ez) ltac:(lia)).
    assert (0 < Z.pos mx * 2 ^ (ex - ez)) by nia.
    assert (0 < Z.pos my * 2 ^ (ey - ez)) by nia.
    lia.
Qed.

Lemma two52 : 2 ^ (0 - -52) = 4503599627370496.
Proof. reflexivity. Qed.

Lemma pow2_le_inv (a b : Z) : 0 <= a -> 2 ^ a <= 2 ^ b -> a <= b.
Proof.
  intros Ha H. destruct (Z.le_gt_cases a b) as [Hle | Hgt]; [exact Hle|].
  assert (Hb : 0 <= b).
  { destruct (Z.le_gt_cases 0 b); [assumption|].
    rewrite (Z.pow_neg_r 2 b) in H by lia. pose proof (pow2_pos a Ha). lia. }
  pose proof (Z.pow_lt_mono_r 2 b a ltac:(lia) ltac:(lia) Hgt). lia.
Qed.

Lemma SFsub_one_lower (q : spec_float) :
  SF_below_one q ->
  match q with S754_finite s _ _ => s = false | _ => True end ->
  SF_ge (-53) (SFsub prec emax SF_one q) /\
  SF_le 1 0 (SFsub prec emax SF_one q) /\
  SF_sign (SFsub prec emax SF_one q) = false.
Proof.
  unfold SF_below_one. intros Hq Hs.
  destruct q as [sq|sq| |sq mq eq]; cbn [SF_le] in Hq; try contradiction.
  - cbn. repeat split; first [lia | reflexivity].
  - subst sq. destruct Hq as [He Hm].
    unfold SFsub, SF_one. stdz.
    replace (Z.min (-52) eq) with eq by lia.
    rewrite !shl_align_le by lia. cbn [cond_Zopp].
    rewrite Z.sub_diag. change (2 ^ 0) with 1. rewrite Z.mul_1_r.
    set (X := 2 ^ (-53 - eq)) in *.
    assert (HX : 0 < X) by (apply pow2_pos; lia).
    replace (-52 - eq) with (1 + (-53 - eq)) by lia.
    rewrite Z.pow_add_r by lia. fold X. change (2 ^ 1) with 2.
    rewrite two53 in Hm.
    assert (Hz : X <= 4503599627370496 * (2 * X) - Z.pos mq <= 9007199254740992 * X) by lia.
    destruct (4503599627370496 * (2 * X) - Z.pos mq) as [|p|p] eqn:Ez; try lia.
    cbn [binary_normalize].
    assert (HT : 2 ^ (0 - eq) = 9007199254740992 * X).
    { replace (0 - eq) with (53 + (-53 - eq)) by lia.
      rewrite Z.pow_add_r by lia. fold X. rewrite two53. reflexivity. }
    pose proof (binary_round_upper 1 0 false p eq ltac:(rewrite two53; lia)
                  ltac:(lia) ltac:(lia) ltac:(lia)) as HU.
    pose proof (binary_round_lower (-53) false p eq ltac:(lia)
                  ltac:(fold X; lia)) as HL.
    destruct (binary_round prec emax false p eq); try contradiction.
    cbn [SF_ge SF_le SF_sign]. intuition.
Qed.

Lemma new_location_inexact (nb k : Z) :
  inexact (new_location nb k) = if k =? 0 then 0 else 1.
Proof.
  unfold new_location, new_location_even, new_location_odd. stdz.
  destruct (Z.even nb); destruct (k =? 0); reflexivity.
Qed.

Lemma SFdiv_le (a L : Z) (x y : spec_float) :
  SF_le 1 a x -> SF_ge L y -> -1074 <= a - L <= 971 ->
  SF_le 1 (a - L) (SFdiv prec emax x y).
Proof.
  intros Hx Hy HaL.
  destruct y as [sy|sy| |sy my ey]; cbn [SF_ge] in Hy; try contradiction.
  destruct x as [sx|sx| |sx mx ex]; cbn [SF_le] in Hx; try contradiction.
  - exact I.
  - destruct Hx as [Hex Hmx]. rewrite Z.mul_1_l in Hmx.
    unfold SFdiv, SFdiv_core_binary. stdz. rewrite fexp64.
    cbn [Zdigits2].
    pose proof (digits2_pos_bounds mx) as [Hd1 Hd1'].
    pose proof (digits2_pos_bounds my) as [Hd2 Hd2'].
    set (d1 := Z.pos (digits2_pos mx)) in *.
    set (d2 := Z.pos (digits2_pos my)) in *.
    assert (H1 : d1 + ex <= a + 1).
    { pose proof (pow2_le_inv (d1 - 1) (a - ex) ltac:(unfold d1; lia) ltac:(lia)). lia. }
    assert (H2 : L - ey < d2).
    { destruct (Z.lt_ge_cases (L - ey) 0) as [Hn | Hp]; [unfold d2; lia|].
      apply pow2_lt_inv; [exact Hp | lia]. }
    set (e' := Z.min (Z.max (d1 + ex - (d2 + ey) - 53) (-1074)) (ex - ey)).
    assert (He' : e' <= a - L) by (unfold e'; lia).
    assert (Hs : 0 <= ex - ey - e') by (unfold e'; lia).
    set (s := ex - ey - e') in *.
    set (m' := match s with Z.pos _ => Z.shiftl (Z.pos mx) s | 0 => Z.pos mx | Z.neg _ => 0 end).
    assert (Hm' : m' = Z.pos mx * 2 ^ s).
    { unfold m'. destruct s as [|p|p] eqn:Es;
        [change (2 ^ 0) with 1; lia | apply Z.shiftl_mul_pow2; lia | lia]. }
    clearbody m'.
    pose proof (Z_div_mod m' (Z.pos my) ltac:(lia)) as Hdiv.
    destruct (Z.div_eucl m' (Z.pos my)) as [q r]. destruct Hdiv as [Hqr Hr].
    apply (of_round_upper 1 (a - L) (xorb sx sy)).
    pose proof (pow2_pos s Hs) as Hps.
    assert (Hq : 0 <= q) by nia.
    apply binary_round_aux_upper; try (rewrite two53; lia); try lia.
    rewrite new_location_inexact, Z.mul_1_l.
    set (T := 2 ^ (a - L - e')).
    assert (HT : 0 < T) by (apply pow2_pos; lia).
    assert (Hm'T : m' <= T * Z.pos my).
    { assert (Hm'1 : m' <= 2 ^ (a - ey - e')).
      { rewrite Hm'. replace (a - ey - e') with ((a - ex) + s) by (unfold s; lia).
        rewrite Z.pow_add_r by lia. nia. }
      destruct (Z.lt_ge_cases (L - ey) 0) as [Hn | Hp].
      - pose proof (pow2_le (a - ey - e') (a - L - e') ltac:(lia)). fold T in H. nia.
      - assert (2 ^ (a - ey - e') = T * 2 ^ (L - ey)).
        { unfold T. rewrite <- Z.pow_add_r by lia. f_equal. lia. }
        nia. }
    destruct (Z.eqb_spec r 0) as [-> | Hrnz]; nia.
Qed.

(** *** Primitive floats *)

Lemma Prim2SF_one : Prim2SF 1 = SF_one.
Proof. vm_compute. reflexivity. Qed.

Lemma Prim2SF_minus_one :
  Prim2SF (-1) = S754_finite true 4503599627370496 (-52).
Proof. vm_compute. reflexivity. Qed.

Lemma Prim2SF_zero : Prim2SF 0 = S754_zero false.
Proof. vm_compute. reflexivity. Qed.

Lemma Prim2SF_infinity : Prim2SF infinity = S754_infinity false.
Proof. vm_compute. reflexivity. Qed.

Lemma SF2Prim_one (s : bool) :
  SF2Prim (S754_finite s 4503599627370496 (-52)) = if s then (-1)%float else 1%float.
Proof. destruct s; vm_compute; reflexivity. Qed.

Lemma SFeqb_refl_finite (s : bool) (m : positive) (e : Z) :
  SFeqb (S754_finite s m e) (S754_finite s m e) = true.
Proof.
  unfold SFeqb, SFcompare. stdz.
  rewrite Z.compare_refl.
  change (Pos.compare_cont Eq m m) with (Pos.compare m m).
  rewrite Pos.compare_refl. destruct s; reflexivity.
Qed.

Lemma is_finite_of_SF_le (Bm Be : Z) (x : float) :
  SF_le Bm Be (Prim2SF x) -> is_finite x = true.
Proof.
  intros H. unfold is_finite, is_nan, is_infinity.
  rewrite !eqb_spec, abs_spec, Prim2SF_infinity.
  destruct (Prim2SF x) as [s|s| |s m e]; cbn [SF_le] in H; try contradiction.
  - reflexivity.
  - rewrite SFeqb_refl_finite. reflexivity.
Qed.

Lemma valid_digits (s : bool) (m : positive) (e : Z) :
  valid_binary (S754_finite s m e) = true ->
  Z.max (Z.pos (digits2_pos m) + e - 53) (-1074) = e /\ e <= 971.
Proof.
  unfold SpecFloat.valid_binary, bounded, canonical_mantissa. rewrite fexp64. stdz.
  intros H. apply andb_true_iff in H. destruct H as [H1 H2].
  apply Z.eqb_eq in H1. apply Z.leb_le in H2.
  change (emax - prec) with 971 in H2. split; assumption.
Qed.

Lemma leb_one_cases (s : bool) (m : positive) (e : Z) :
  SFleb (SFabs (S754_finite s m e)) SF_one = true ->
  e < -52 \/ (e = -52 /\ Z.pos m <= 4503599627370496).
Proof.
  intros H. unfold SFleb, SFabs, SF_one, SFcompare in H. stdz.
  destruct (Z.compare_spec e (-52)) as [E | E | E].
  - right. split; [exact E|].
    pose proof (Pos.compare_spec m 4503599627370496) as Hcmp.
    unfold Pos.compare in Hcmp.
    destruct Hcmp as [E' | E' | E'].
    + subst m. lia.
    + apply Pos2Z.pos_lt_pos in E'. lia.
    + discriminate H.
  - left. exact E.
  - discriminate H.
Qed.

Lemma small_exponent_below_one (m : positive) (e : Z) :
  e <= -53 -> Z.pos m < 2 ^ 53 -> Z.pos m <= (2 ^ 53 - 1) * 2 ^ (-53 - e).
Proof.
  intros He Hm. pose proof (pow2_pos (-53 - e) ltac:(lia)). nia.
Qed.

Lemma two52' : 2 ^ (53 - 1) = 4503599627370496.
Proof. reflexivity. Qed.

Lemma in_unit_cases (r : float) :
  in_unit r = true ->
  r = 1%float \/ r = (-1)%float \/ SF_below_one (Prim2SF r).
Proof.
  unfold in_unit. rewrite leb_spec, abs_spec, Prim2SF_one.
  pose proof (Prim2SF_valid r) as Hv.
  pose proof (SF2Prim_Prim2SF r) as Hr.
  destruct (Prim2SF r) as [s|s| |s m e]; intros H.
  - right; right. exact I.
  - discriminate H.
  - discriminate H.
  - apply valid_digits in Hv. destruct Hv as [Hc He].
    pose proof (digits2_pos_bounds m) as [Hlo Hhi].
    apply leb_one_cases in H. destruct H as [E | [E Hm]].
    + right; right. unfold SF_below_one. cbn [SF_le]. split; [lia|].
      apply small_exponent_below_one; [lia|].
      apply Z.lt_le_trans with (2 ^ Z.pos (digits2_pos m)); [exact Hhi|].
      apply pow2_le. lia.
    + subst e.
      assert (Hd : Z.pos (digits2_pos m) = 53) by lia.
      rewrite Hd, two52' in Hlo.
      assert (Hm' : m = 4503599627370496%positive) by (apply Pos2Z.inj; lia).
      subst m. rewrite SF2Prim_one in Hr.
      destruct s; [right; left | left]; symmetry; exact Hr.
Qed.

Lemma below_one_le (x : spec_float) : SF_below_one x -> SF_le 1 0 x.
Proof.
  unfold SF_below_one. destruct x as [s|s| |s m e]; cbn [SF_le]; auto.
  intros [He Hm]. split; [lia|].
  replace (0 - e) with (53 + (-53 - e)) by lia.
  rewrite Z.pow_add_r by lia.
  pose proof (pow2_pos (-53 - e) ltac:(lia)). nia.
Qed.

Lemma in_unit_le (r : float) : in_unit r = true -> SF_le 1 0 (Prim2SF r).
Proof.
  intros H. destruct (in_unit_cases r H) as [-> | [-> | Hb]].
  - rewrite Prim2SF_one. unfold SF_one. cbn [SF_le]. rewrite two52. lia.
  - rewrite Prim2SF_minus_one. cbn [SF_le]. rewrite two52. lia.
  - apply below_one_le, Hb.
Qed.

(** *** Subtracting from one *)

(** [1 - q] is a zero, an infinity, or at least [2^-53] in magnitude. *)
Lemma SFsub_one_far (q : spec_float) :
  valid_binary q = true ->
  match SFsub prec emax SF_one q with
  | S754_zero _ | S754_infinity _ => True
  | S754_nan => q = S754_nan
  | S754_finite _ m e => 2 ^ (-53 - e) <= Z.pos m
  end.
Proof.
  intros Hv. destruct q as [sq|sq| |sq mq eq].
  - cbn. lia.
  - exact I.
  - reflexivity.
  - apply valid_digits in Hv. destruct Hv as [Hc He].
    pose proof (digits2_pos_bounds mq) as [Hlo Hhi].
    unfold SFsub, SF_one. stdz.
    set (ez := Z.min (-52) eq).
    rewrite !shl_align_le by (unfold ez; lia).
    cbn [cond_Zopp].
    set (z := Z.pos 4503599627370496 * 2 ^ (-52 - ez) -
              cond_Zopp sq (Z.pos mq * 2 ^ (eq - ez))).
    assert (Hz : z = 0 \/ 2 ^ (-53 - ez) <= Z.abs z).
    { destruct (Z.eq_dec z 0) as [E | E]; [left; exact E | right].
      destruct (Z.le_gt_cases (-53) ez) as [Hez | Hez].
      - assert (2 ^ (-53 - ez) <= 1).
        { destruct (Z.eq_dec ez (-53)) as [-> | N]; [cbn; lia|].
          rewrite Z.pow_neg_r by lia. lia. }
        lia.
      - assert (Eez : ez = eq) by (unfold ez; lia).
        unfold z. rewrite Eez, Z.sub_diag. change (2 ^ 0) with 1.
        rewrite Z.mul_1_r.
        set (X := 2 ^ (-53 - eq)).
        assert (HX : 2 <= X).
        { unfold X. change 2 with (2 ^ 1) at 1. apply pow2_le. lia. }
        replace (-52 - eq) with (52 + 1 + (-53 - eq) - 52) by lia.
        assert (HP : Z.pos 4503599627370496 * 2 ^ (52 + 1 + (-53 - eq) - 52)
                     = 9007199254740992 * X).
        { replace (52 + 1 + (-53 - eq) - 52) with (1 + (-53 - eq)) by lia.
          rewrite Z.pow_add_r by lia. fold X. change (2 ^ 1) with 2. lia. }
        rewrite HP.
        assert (Hm : Z.pos mq < 9007199254740992).
        { rewrite <- two53.
          apply Z.lt_le_trans with (2 ^ Z.pos (digits2_pos mq)); [exact Hhi|].
          apply pow2_le. lia. }
        destruct sq; cbn [cond_Zopp]; stdz; lia. }
    clearbody z.
    destruct Hz as [-> | Hz]; [exact I|].
    destruct z as [|p|p]; cbn [binary_normalize].
    + exact I.
    + pose proof (binary_round_lower (-53) false p ez ltac:(lia) ltac:(lia)) as HL.
      destruct (binary_round prec emax false p ez); try exact I; try contradiction.
      apply HL.
    + pose proof (binary_round_lower (-53) true p ez ltac:(lia) ltac:(lia)) as HL.
      destruct (binary_round prec emax true p ez); try exact I; try contradiction.
      apply HL.
Qed.

(** *** Faithful squares *)

Lemma Prim2SF_nan : Prim2SF nan = S754_nan.
Proof. vm_compute. reflexivity. Qed.

Lemma is_nan_spec (x : float) : is_nan x = true <-> Prim2SF x = S754_nan.
Proof.
  unfold is_nan. rewrite eqb_spec.
  destruct (Prim2SF x) as [s|s| |s m e].
  - destruct s; cbn; split; discriminate.
  - destruct s; cbn; split; discriminate.
  - cbn. split; reflexivity.
  - rewrite SFeqb_refl_finite. cbn. split; discriminate.
Qed.

Lemma dyadic_le_at (a b : dyadic) (e0 : Z) :
  e0 <= snd a -> e0 <= snd b ->
  (dyadic_le a b = true <->
   fst a * 2 ^ (snd a - e0) <= fst b * 2 ^ (snd b - e0)).
Proof.
  intros Ha Hb. unfold dyadic_le. cbv zeta.
  set (e := Z.min (snd a) (snd b)).
  assert (He : e0 <= e) by (unfold e; lia).
  assert (Ea : snd a - e0 = (snd a - e) + (e - e0)) by lia.
  assert (Eb : snd b - e0 = (snd b - e) + (e - e0)) by lia.
  rewrite Ea, Eb, !Z.pow_add_r by (unfold e; lia).
  pose proof (pow2_pos (e - e0) ltac:(lia)) as HP.
  rewrite Z.leb_le. rewrite !Z.mul_assoc.
  split; intros H.
  - apply Z.mul_le_mono_nonneg_r; lia.
  - apply Z.mul_le_mono_pos_r in H; lia.
Qed.

Lemma valid_mantissa (s : bool) (m : positive) (e : Z) :
  valid_binary (S754_finite s m e) = true ->
  Z.pos m < 2 ^ 53 /\ -1074 <= e /\ (-1074 < e -> 2 ^ 52 <= Z.pos m).
Proof.
  intros Hv. apply valid_digits in Hv. destruct Hv as [Hc He].
  pose proof (digits2_pos_bounds m) as [Hlo Hhi].
  split; [|split].
  - apply Z.lt_le_trans with (2 ^ Z.pos (digits2_pos m)); [exact Hhi|].
    apply pow2_le. lia.
  - lia.
  - intros H. apply Z.le_trans with (2 ^ (Z.pos (digits2_pos m) - 1)); [|exact Hlo].
    apply pow2_le. lia.
Qed.

Lemma dyadic_le_zero_square (v : dyadic) : dyadic_le (0, 0) (dyadic_square v) = true.
Proof.
  unfold dyadic_le, dyadic_square. cbn [fst snd]. apply Z.leb_le.
  rewrite Z.mul_0_l.
  apply Z.mul_nonneg_nonneg; [apply Z.square_nonneg | apply pow2_nonneg].
Qed.

Lemma exact_value_one : exact_value 1 = Some (4503599627370496, -52).
Proof. vm_compute. reflexivity. Qed.

Lemma exact_value_zero : exact_value 0 = Some (0, 0).
Proof. vm_compute. reflexivity. Qed.

Lemma exact_value_below_one :
  exact_value 0x1.fffffffffffffp-1 = Some (9007199254740991, -53).
Proof. vm_compute. reflexivity. Qed.

Lemma exact_value_finite (s : float) (v : dyadic) :
  exact_value s = Some v ->
  match Prim2SF s with
  | S754_zero _ => v = (0, 0)
  | S754_finite sg m e =>
      v = (if sg then Z.neg m else Z.pos m, e) /\
      Z.pos m < 2 ^ 53 /\ -1074 <= e /\ (-1074 < e -> 2 ^ 52 <= Z.pos m)
  | _ => False
  end.
Proof.
  unfold exact_value. pose proof (Prim2SF_valid s) as Hv.
  destruct (Prim2SF s) as [sg|sg| |sg m e]; intros H; inversion H; subst.
  - reflexivity.
  - split; [reflexivity|]. apply (valid_mantissa sg), Hv.
Qed.

(** A faithful square of a number below [1] in magnitude is not negative
    and is below [1]. *)
Lemma faithful_square_below_one (x s : float) :
  SF_below_one (Prim2SF x) -> faithful_square x s ->
  SF_below_one (Prim2SF s) /\
  match Prim2SF s with S754_finite sg _ _ => sg = false | _ => True end.
Proof.
  intros Hx (vx & vs & Ex & Es & H).
  destruct (H _ _ exact_value_below_one) as [_ Hup].
  destruct (H _ _ exact_value_zero) as [Hlo _].
  specialize (Hlo (dyadic_le_zero_square vx)).
  assert (Hsq : dyadic_le (dyadic_square vx) (9007199254740991, -53) = true).
  { apply exact_value_finite in Ex. unfold SF_below_one in Hx.
    destruct (Prim2SF x) as [sx|sx| |sx mx ex]; cbn [SF_le] in Hx;
      try contradiction.
    - subst vx. vm_compute. reflexivity.
    - destruct Ex as (-> & _). destruct Hx as [He Hm].
      apply (dyadic_le_at _ _ (2 * ex)); unfold dyadic_square; cbn [fst snd]; try lia.
      rewrite Z.sub_diag. change (2 ^ 0) with 1. rewrite Z.mul_1_r.
      set (X := 2 ^ (-53 - ex)) in *.
      assert (HX : 0 < X) by (apply pow2_pos; lia).
      replace (-53 - 2 * ex) with (53 + ((-53 - ex) + (-53 - ex))) by lia.
      rewrite !Z.pow_add_r by lia. fold X. rewrite two53 in *.
      assert (Hsq : Z.pos mx * Z.pos mx <=
                    (9007199254740991 * X) * (9007199254740991 * X))
        by (apply Z.mul_le_mono_nonneg; lia).
      assert (0 < X * X) by nia.
      assert (E : (if sx then Z.neg mx else Z.pos mx) *
                  (if sx then Z.neg mx else Z.pos mx) = Z.pos mx * Z.pos mx)
        by (destruct sx; lia).
      rewrite E. nia. }
  specialize (Hup Hsq).
  apply exact_value_finite in Es. unfold SF_below_one.
  destruct (Prim2SF s) as [sg|sg| |sg m e]; try contradiction.
  - split; exact I.
  - destruct Es as (-> & Hm & He & Hn).
    assert (Hsg : sg = false).
    { destruct sg; [|reflexivity].
      apply (dyadic_le_at _ _ (Z.min e 0)) in Hlo; cbn [fst snd]; try lia.
      cbn [fst snd] in Hlo.
      pose proof (pow2_pos (e - Z.min e 0) ltac:(lia)). lia. }
    subst sg. split; [|reflexivity]. cbn [SF_le].
    apply (dyadic_le_at _ _ (Z.min e (-53))) in Hup; cbn [fst snd]; try lia.
    cbn [fst snd] in Hup.
    destruct (Z.le_gt_cases e (-53)) as [Hle | Hgt].
    + replace (Z.min e (-53)) with e in Hup by lia.
      rewrite Z.sub_diag in Hup. change (2 ^ 0) with 1 in Hup.
      rewrite two53. split; lia.
    + exfalso. replace (Z.min e (-53)) with (-53) in Hup by lia.
      change (2 ^ (-53 - -53)) with 1 in Hup.
      specialize (Hn ltac:(lia)). change (2 ^ 52) with 4503599627370496 in Hn.
      pose proof (pow2_le 1 (e - -53) ltac:(lia)) as HP.
      change (2 ^ 1) with 2 in HP. nia.
Qed.

Lemma spacing_above (m mz k P V : Z) :
  0 < P -> m * P < mz * (k * P) -> mz * (k * P) <= V ->
  V < (m + 1) * P -> False.
Proof.
  intros HP H1 H2 H3.
  assert (H : m < mz * k).
  { apply (Z.mul_lt_mono_pos_r P); [exact HP|]. rewrite <- Z.mul_assoc. exact H1. }
  assert (H' : (m + 1) * P <= mz * k * P)
    by (apply Z.mul_le_mono_nonneg_r; lia).
  rewrite <- Z.mul_assoc in H'. lia.
Qed.

Lemma spacing_below (m mz k P V : Z) :
  0 < P -> mz * (k * P) < m * P -> V <= mz * (k * P) ->
  (m - 1) * P < V -> False.
Proof.
  intros HP H1 H2 H3.
  assert (H : mz * k < m).
  { apply (Z.mul_lt_mono_pos_r P); [exact HP|]. rewrite <- Z.mul_assoc. exact H1. }
  assert (H' : mz * k * P <= (m - 1) * P)
    by (apply Z.mul_le_mono_nonneg_r; lia).
  rewrite <- Z.mul_assoc in H'. lia.
Qed.

Lemma finer_is_smaller (m mz k Q : Z) :
  0 < Q -> 2 <= k -> 4503599627370496 <= m -> mz < 9007199254740992 ->
  mz * Q < m * (k * Q).
Proof.
  intros HQ Hk Hm Hmz.
  assert (H1 : mz * Q < 9007199254740992 * Q)
    by (apply Z.mul_lt_mono_pos_r; assumption).
  assert (H2 : 2 * Q <= k * Q) by (apply Z.mul_le_mono_nonneg_r; lia).
  assert (H3 : 4503599627370496 * (k * Q) <= m * (k * Q)).
  { apply Z.mul_le_mono_nonneg_r; [|exact Hm].
    apply Z.mul_nonneg_nonneg; lia. }
  lia.
Qed.

Lemma neg_lt_pos (m mz P Q : Z) :
  0 < P -> 0 < Q -> 0 <= m -> 0 < mz -> - mz * Q < m * P.
Proof.
  intros HP HQ Hm Hmz.
  assert (0 <= m * P) by (apply Z.mul_nonneg_nonneg; lia).
  assert (0 < mz * Q) by (apply Z.mul_pos_pos; lia).
  lia.
Qed.

Lemma coarser_is_larger (m mz k Q : Z) :
  0 < Q -> 2 <= k -> 4503599627370496 <= m -> mz < 9007199254740992 ->
  mz * Q = m * (k * Q) -> False.
Proof.
  intros HQ Hk Hm Hmz E.
  pose proof (finer_is_smaller m mz k Q HQ Hk Hm Hmz). lia.
Qed.

(** Two binary64 numbers of the same exact value, not zero, are the same
    number. *)
Lemma exact_value_inj (a b : float) (va vb : dyadic) :
  exact_value a = Some va -> exact_value b = Some vb ->
  dyadic_le va vb = true -> dyadic_le vb va = true -> fst vb <> 0 -> a = b.
Proof.
  intros Ea Eb H1 H2 Hnz.
  apply exact_value_finite in Ea. apply exact_value_finite in Eb.
  apply Prim2SF_inj.
  destruct (Prim2SF b) as [sb|sb| |sb mb eb]; try contradiction.
  { subst vb. exfalso. apply Hnz. reflexivity. }
  destruct Eb as (-> & Hmb & Heb & Hnb). clear Hnz.
  change (2 ^ 53) with 9007199254740992 in Hmb.
  change (2 ^ 52) with 4503599627370496 in Hnb.
  destruct (Prim2SF a) as [sa|sa| |sa ma ea]; try contradiction.
  - subst va. exfalso.
    apply (dyadic_le_at _ _ (Z.min 0 eb)) in H1; cbn [fst snd]; try lia.
    apply (dyadic_le_at _ _ (Z.min 0 eb)) in H2; cbn [fst snd]; try lia.
    cbn [fst snd] in H1, H2.
    pose proof (pow2_pos (eb - Z.min 0 eb) ltac:(lia)) as HP.
    assert (0 < Z.pos mb * 2 ^ (eb - Z.min 0 eb))
      by (apply Z.mul_pos_pos; lia).
    destruct sb; lia.
  - destruct Ea as (-> & Hma & Hea & Hna).
    change (2 ^ 53) with 9007199254740992 in Hma.
    change (2 ^ 52) with 4503599627370496 in Hna.
    set (e0 := Z.min ea eb).
    apply (dyadic_le_at _ _ e0) in H1; cbn [fst snd]; try (unfold e0; lia).
    apply (dyadic_le_at _ _ e0) in H2; cbn [fst snd]; try (unfold e0; lia).
    cbn [fst snd] in H1, H2.
    set (P := 2 ^ (ea - e0)) in *. set (Q := 2 ^ (eb - e0)) in *.
    assert (HP : 0 < P) by (apply pow2_pos; unfold e0; lia).
    assert (HQ : 0 < Q) by (apply pow2_pos; unfold e0; lia).
    assert (HaP : 0 < Z.pos ma * P) by (apply Z.mul_pos_pos; lia).
    assert (HbQ : 0 < Z.pos mb * Q) by (apply Z.mul_pos_pos; lia).
    assert (Hs : sa = sb) by (destruct sa, sb; try reflexivity; lia).
    subst sb.
    assert (E : Z.pos ma * P = Z.pos mb * Q) by (destruct sa; lia).
    destruct (Z.lt_trichotomy ea eb) as [L | [L | L]].
    + exfalso.
      assert (EP : P = 1).
      { unfold P, e0. replace (ea - Z.min ea eb) with 0 by lia. reflexivity. }
      assert (EQ : Q = 2 ^ (eb - ea) * 1).
      { unfold Q, e0. replace (Z.min ea eb) with ea by lia. lia. }
      pose proof (pow2_le 1 (eb - ea) ltac:(lia)) as Hk.
      change (2 ^ 1) with 2 in Hk.
      apply (coarser_is_larger (Z.pos mb) (Z.pos ma) (2 ^ (eb - ea)) 1);
        try lia.
    + subst eb.
      assert (EP : P = Q) by reflexivity.
      rewrite EP in E. apply Z.mul_cancel_r in E; [|lia].
      apply Pos2Z.inj in E. subst mb. reflexivity.
    + exfalso.
      assert (EQ : Q = 1).
      { unfold Q, e0. replace (eb - Z.min ea eb) with 0 by lia. reflexivity. }
      assert (EP : P = 2 ^ (ea - eb) * 1).
      { unfold P, e0. replace (Z.min ea eb) with eb by lia. lia. }
      pose proof (pow2_le 1 (ea - eb) ltac:(lia)) as Hk.
      change (2 ^ 1) with 2 in Hk.
      apply (coarser_is_larger (Z.pos ma) (Z.pos mb) (2 ^ (ea - eb)) 1);
        try lia.
Qed.

(** Where the exact square is a binary64 number, not zero, a faithful square
    is that number. *)
Lemma faithful_square_exact (x s z : float) (vx vz : dyadic) :
  exact_value x = Some vx -> exact_value z = Some vz ->
  dyadic_le vz (dyadic_square vx) = true -> dyadic_le (dyadic_square vx) vz = true ->
  fst vz <> 0 -> faithful_square x s -> s = z.
Proof.
  intros Ex Ez H1 H2 Hnz (vx' & vs & Ex' & Es & H).
  rewrite Ex in Ex'. inversion Ex'; subst vx'.
  destruct (H z vz Ez) as [Ha Hb].
  exact (exact_value_inj s z vs vz Es Ez (Hb H2) (Ha H1) Hnz).
Qed.

(** A faithful square of [1.0] or [-1.0] is [1.0]. *)
Lemma faithful_square_one (x s : float) :
  x = 1%float \/ x = (-1)%float -> faithful_square x s -> s = 1%float.
Proof.
  intros [-> | ->].
  - apply (faithful_square_exact 1 s 1 (4503599627370496, -52)
             (4503599627370496, -52));
      try (vm_compute; reflexivity); discriminate.
  - apply (faithful_square_exact (-1) s 1 (-4503599627370496, -52)
             (4503599627370496, -52));
      try (vm_compute; reflexivity); discriminate.
Qed.

(** The check is right: what passes it is a faithful square. *)
Lemma faithful_check_sound (x s : float) :
  faithful_check x s = true -> faithful_square x s.
Proof.
  unfold faithful_check.
  destruct (exact_value x) as [vx|] eqn:Ex; [|discriminate].
  pose proof (Prim2SF_valid s) as Hvs.
  destruct (Prim2SF s) as [sg|sg| |sg m e] eqn:Es; try discriminate.
  destruct sg; [discriminate|].
  apply (valid_mantissa false) in Hvs. destruct Hvs as (Hm & He & Hn).
  cbv zeta. set (v := dyadic_square vx). intros Hc.
  exists vx, (Z.pos m, e).
  split; [exact Ex|]. split; [unfold exact_value; rewrite Es; reflexivity|].
  fold v. intros z vz Ez.
  set (e0 := Z.min (Z.min (snd v) (snd vz)) e).
  assert (Hpe : 0 < 2 ^ (e - e0)) by (apply pow2_pos; unfold e0; lia).
  apply orb_true_iff in Hc. destruct Hc as [Hc | Hc].
  - apply andb_true_iff in Hc. destruct Hc as [H1 H2].
    apply (dyadic_le_at _ _ e0) in H1; cbn [fst snd]; try (unfold e0; lia).
    apply (dyadic_le_at _ _ e0) in H2; cbn [fst snd]; try (unfold e0; lia).
    cbn [fst snd] in H1, H2.
    split; intros H3;
      apply (dyadic_le_at _ _ e0) in H3; try (unfold e0; lia);
      apply (dyadic_le_at _ _ e0); cbn [fst snd]; try (unfold e0; lia);
      cbn [fst snd] in H3; lia.
  - apply andb_true_iff in Hc. destruct Hc as [Hc H2].
    apply andb_true_iff in Hc. destruct Hc as [Hb H1].
    apply Z.ltb_lt in Hb. change (2 ^ 52) with 4503599627370496 in Hb.
    change (2 ^ 53) with 9007199254740992 in Hm.
    apply negb_true_iff in H1, H2.
    assert (H1' : (Z.pos m - 1) * 2 ^ (e - e0) < fst v * 2 ^ (snd v - e0)).
    { destruct (Z.lt_ge_cases ((Z.pos m - 1) * 2 ^ (e - e0))
                  (fst v * 2 ^ (snd v - e0))) as [L | G]; [exact L|].
      apply (dyadic_le_at v (Z.pos m - 1, e) e0) in G;
        cbn [fst snd]; try (unfold e0; lia). congruence. }
    assert (H2' : fst v * 2 ^ (snd v - e0) < (Z.pos m + 1) * 2 ^ (e - e0)).
    { destruct (Z.lt_ge_cases (fst v * 2 ^ (snd v - e0))
                  ((Z.pos m + 1) * 2 ^ (e - e0))) as [L | G]; [exact L|].
      apply (dyadic_le_at (Z.pos m + 1, e) v e0) in G;
        cbn [fst snd]; try (unfold e0; lia). congruence. }
    clear H1 H2.
    set (V := fst v * 2 ^ (snd v - e0)) in *.
    set (P := 2 ^ (e - e0)) in *.
    apply exact_value_finite in Ez.
    destruct (Prim2SF z) as [sz|sz| |sz mz ez]; try contradiction.
    + subst vz. cbn [snd] in e0. split; intros H3;
        apply (dyadic_le_at _ _ e0) in H3; try (cbn [fst snd]; unfold e0; lia);
        apply (dyadic_le_at _ _ e0); cbn [fst snd]; try (unfold e0; lia);
        cbn [fst snd] in H3; fold V in H3; fold P;
        rewrite ?Z.mul_0_l in *;
        assert (0 <= (Z.pos m - 1) * P) by (apply Z.mul_nonneg_nonneg; lia);
        assert (0 <= Z.pos m * P) by (apply Z.mul_nonneg_nonneg; lia); lia.
    + destruct Ez as (-> & Hmz & Hez & Hnz).
      change (2 ^ 53) with 9007199254740992 in Hmz.
      change (2 ^ 52) with 4503599627370496 in Hnz.
      cbn [snd] in e0.
      set (Q := 2 ^ (ez - e0)).
      assert (HQ : 0 < Q) by (apply pow2_pos; unfold e0; lia).
      assert (Hrel : (e <= ez /\ exists k, 1 <= k /\ Q = k * P) \/
                     (ez < e /\ exists k, 2 <= k /\ P = k * Q)).
      { destruct (Z.le_gt_cases e ez) as [L | G].
        - left. split; [exact L|]. exists (2 ^ (ez - e)). split.
          + pose proof (pow2_pos (ez - e) ltac:(lia)). lia.
          + unfold Q, P. rewrite <- Z.pow_add_r by (unfold e0; lia).
            f_equal. lia.
        - right. split; [exact G|]. exists (2 ^ (e - ez)). split.
          + pose proof (pow2_le 1 (e - ez) ltac:(lia)) as HP.
            change (2 ^ 1) with 2 in HP. exact HP.
          + unfold Q, P. rewrite <- Z.pow_add_r by (unfold e0; lia).
            f_equal. lia. }
      assert (Hsg : (if sz then Z.neg mz else Z.pos mz) =
                    if sz then - Z.pos mz else Z.pos mz)
        by (destruct sz; reflexivity).
      split; intros H3;
        apply (dyadic_le_at _ _ e0) in H3; try (cbn [fst snd]; unfold e0; lia);
        apply (dyadic_le_at _ _ e0); cbn [fst snd]; try (unfold e0; lia);
        cbn [fst snd] in H3; fold V in H3; fold P; fold Q; fold Q in H3;
        rewrite Hsg in *.
      * (* z <= v  ->  z <= s *)
        destruct sz.
        { pose proof (neg_lt_pos (Z.pos m) (Z.pos mz) P Q Hpe HQ
                        ltac:(lia) ltac:(lia)). lia. }
        destruct (Z.le_gt_cases (Z.pos mz * Q) (Z.pos m * P)) as [L | G];
          [exact L | exfalso].
        destruct Hrel as [[L (k & Hk & EQ)] | [L (k & Hk & EP)]].
        -- rewrite EQ in *.
           exact (spacing_above (Z.pos m) (Z.pos mz) k P V Hpe G H3 H2').
        -- rewrite EP in *.
           pose proof (finer_is_smaller (Z.pos m) (Z.pos mz) k Q HQ Hk
                         ltac:(lia) Hmz). lia.
      * (* v <= z  ->  s <= z *)
        destruct sz.
        { exfalso.
          pose proof (neg_lt_pos (Z.pos m - 1) (Z.pos mz) P Q Hpe HQ
                        ltac:(lia) ltac:(lia)). lia. }
        destruct (Z.le_gt_cases (Z.pos m * P) (Z.pos mz * Q)) as [L | G];
          [exact L | exfalso].
        destruct Hrel as [[L (k & Hk & EQ)] | [L (k & Hk & EP)]].
        -- rewrite EQ in *.
           exact (spacing_below (Z.pos m) (Z.pos mz) k P V Hpe G H3 H1').
        -- rewrite EP in *.
           pose proof (finer_is_smaller (Z.pos m - 1) (Z.pos mz) k Q HQ Hk
                         ltac:(lia) Hmz). lia.
Qed.

Lemma faithful_not_nan (x s : float) : faithful_square x s -> is_nan s = false.
Proof.
  intros (vx & vs & _ & Es & _). unfold exact_value in Es.
  destruct (is_nan s) eqn:E; [|reflexivity].
  apply is_nan_spec in E. rewrite E in Es. discriminate Es.
Qed.

(** The correctly rounded square is a faithful one wherever the check says
    so. *)
Lemma rounded_square_faithful (r13 r23 r12 : float) :
  faithful_check r13 (rounded_square r13) = true ->
  faithful_check r23 (rounded_square r23) = true ->
  faithful_check r12 (rounded_square r12) = true ->
  sq_faithful rounded_square r13 r23 r12.
Proof. intros H1 H2 H3. repeat split; apply faithful_check_sound; assumption. Qed.

(** *** The arithmetic of the function on inputs in [[-1, 1]] *)

Lemma truthy_of_SF_ge (L : Z) (x : float) :
  SF_ge L (Prim2SF x) -> truthy x = true.
Proof.
  unfold truthy. rewrite eqb_spec, Prim2SF_zero.
  destruct (Prim2SF x) as [s|s| |s m e]; cbn [SF_ge]; try contradiction.
  intros _. destruct s; reflexivity.
Qed.

(** For [b] below [1] in magnitude and a faithful square [s] of it, the
    denominator [1 - s] is positive, at least [2^-53] and at most [1]. *)
Lemma denom_below_one (b s : float) :
  SF_below_one (Prim2SF b) -> faithful_square b s ->
  SF_ge (-53) (Prim2SF (1 - s)) /\ SF_le 1 0 (Prim2SF (1 - s)) /\
  SF_sign (Prim2SF (1 - s)) = false.
Proof.
  intros Hb Hf. destruct (faithful_square_below_one b s Hb Hf) as [H1 H2].
  rewrite sub_spec, Prim2SF_one. apply SFsub_one_lower; assumption.
Qed.

Lemma denom_positive (b s : float) :
  SF_below_one (Prim2SF b) -> faithful_square b s ->
  (0 <? 1 - s)%float = true /\ truthy (1 - s) = true.
Proof.
  intros Hb Hf. destruct (denom_below_one b s Hb Hf) as (Hge & _ & Hsg).
  split; [|apply (truthy_of_SF_ge (-53)), Hge].
  rewrite ltb_spec, Prim2SF_zero.
  destruct (Prim2SF (1 - s)) as [sd|sd| |sd md ed];
    cbn [SF_ge] in Hge; try contradiction.
  cbn [SF_sign] in Hsg. subst sd. reflexivity.
Qed.

(** On [[-1, 1]], with a faithful square, the denominator [1 - b**2] is a
    zero exactly at [b = 1] and [b = -1]. *)
Lemma denom_zero_iff (b s : float) :
  in_unit b = true -> faithful_square b s ->
  (truthy (1 - s) = false <-> b = 1%float \/ b = (-1)%float).
Proof.
  intros Hb Hf. split.
  - intros Ht. destruct (in_unit_cases b Hb) as [H | [H | H]]; auto.
    destruct (denom_positive b s H Hf) as [_ Ht']. congruence.
  - intros H. rewrite (faithful_square_one b s H Hf). vm_compute. reflexivity.
Qed.

Lemma product_in_unit (b c : float) :
  in_unit b = true -> in_unit c = true -> SF_le 1 0 (Prim2SF (b * c)).
Proof.
  intros Hb Hc. rewrite mul_spec.
  apply (SFmul_le 0 0); try lia; apply in_unit_le; assumption.
Qed.

Lemma numerator_bound (a b c : float) :
  in_unit a = true -> in_unit b = true -> in_unit c = true ->
  SF_le 1 1 (Prim2SF (a - b * c)).
Proof.
  intros Ha Hb Hc. rewrite sub_spec.
  apply (SFsub_le 0); try lia.
  - apply in_unit_le, Ha.
  - apply product_in_unit; assumption.
Qed.

(** Whatever number [s] the library gives for the square, the quotient of
    the deconfounding formula by a denominator [1 - s] that is not a zero is
    at most [2^54] in magnitude: a denominator that is not a zero is an
    infinity or at least [2^-53] in magnitude. *)
Lemma quotient_bound (a b c s : float) :
  in_unit a = true -> in_unit b = true -> in_unit c = true ->
  is_nan s = false -> truthy (1 - s) = true ->
  SF_le 1 54 (Prim2SF ((a - b * c) / (1 - s))).
Proof.
  intros Ha Hb Hc Hs Ht.
  pose proof (numerator_bound a b c Ha Hb Hc) as Hn.
  pose proof (SFsub_one_far (Prim2SF s) (Prim2SF_valid s)) as Hd.
  rewrite <- Prim2SF_one, <- sub_spec in Hd.
  unfold truthy in Ht. rewrite eqb_spec, Prim2SF_zero in Ht.
  rewrite div_spec.
  destruct (Prim2SF (1 - s)) as [sd|sd| |sd md ed] eqn:Ed.
  - destruct sd; discriminate Ht.
  - destruct (Prim2SF (a - b * c)) as [sn|sn| |sn mn en];
      cbn [SF_le] in Hn; try contradiction; exact I.
  - apply is_nan_spec in Hd. congruence.
  - apply (SFdiv_le 1 (-53)); [exact Hn | exact Hd | lia].
Qed.

Lemma deconf_finite (sq : float -> float) (a b c : float) :
  in_unit a = true -> in_unit b = true -> in_unit c = true ->
  is_nan (sq b) = false ->
  is_finite (deconf sq a b c) = true.
Proof.
  intros Ha Hb Hc Hs. unfold deconf. cbv zeta.
  destruct (truthy (1 - sq b)) eqn:Ht.
  - apply (is_finite_of_SF_le 1 54), quotient_bound; assumption.
  - vm_compute. reflexivity.
Qed.

Lemma in_unit_finite (r : float) : in_unit r = true -> is_finite r = true.
Proof. intros H. apply (is_finite_of_SF_le 1 0), in_unit_le, H. Qed.

(** An input in [[-1, 1]] passes the range check. *)
Lemma in_unit_in_range (r : float) : in_unit r = true -> out_of_range r = false.
Proof.
  intros H. destruct (in_unit_cases r H) as [-> | [-> | Hb]].
  - vm_compute. reflexivity.
  - vm_compute. reflexivity.
  - unfold out_of_range. rewrite ltb_spec, abs_spec, Prim2SF_one.
    unfold SF_below_one in Hb.
    destruct (Prim2SF r) as [s|s| |s m e]; cbn [SF_le] in Hb; try contradiction.
    + reflexivity.
    + destruct Hb as [He _]. unfold SFltb, SFabs, SF_one, SFcompare. stdz.
      destruct (Z.compare_spec (-52) e) as [E | E | E]; try lia; reflexivity.
Qed.

(** ** Running the function symbolically *)

Lemma bind_exit {A B} (out : list line) (c : Z) (k : A -> prog B) :
  bind (out, SysExit c) k = (out, SysExit c).
Proof. reflexivity. Qed.

Lemma bind_ret {A B} (a : A) (k : A -> prog B) : bind (ret a) k = k a.
Proof. unfold bind, ret. destruct (k a). reflexivity. Qed.

Lemma check_range_eq (r13 r23 r12 : float) :
  check_range r13 r23 r12 =
  if out_of_range r13 then ([LRangeError "r13" r13], SysExit (-1))
  else if out_of_range r23 then ([LRangeError "r23" r23], SysExit (-1))
  else if out_of_range r12 then ([LRangeError "r12" r12], SysExit (-1))
  else ret tt.
Proof.
  unfold check_range.
  cbv -[out_of_range].
  destruct (out_of_range r13); [reflexivity|].
  destruct (out_of_range r23); [reflexivity|].
  destruct (out_of_range r12); reflexivity.
Qed.

Ltac split_truthy :=
  repeat match goal with
         | |- context [truthy ?d] => destruct (truthy d)
         end.

Lemma build_closed (sq : float -> float)
    (r13 r23 r12 : float) (verb : bool) :
  out_of_range r13 = false -> out_of_range r23 = false ->
  out_of_range r12 = false ->
  outcome (build sq r13 r23 r12 verb) = Ok (ws_closed sq r13 r23 r12).
Proof.
  intros H13 H23 H12. unfold build.
  rewrite check_range_eq, H13, H23, H12, bind_ret.
  destruct verb; cbv -[truthy]; split_truthy; reflexivity.
Qed.

Lemma build_output (sq : float -> float)
    (r13 r23 r12 : float) (verb : bool) :
  out_of_range r13 = false -> out_of_range r23 = false ->
  out_of_range r12 = false ->
  output (build sq r13 r23 r12 verb) = output_closed sq r13 r23 r12 verb.
Proof.
  intros H13 H23 H12. unfold build.
  rewrite check_range_eq, H13, H23, H12, bind_ret.
  destruct verb; cbv -[truthy]; split_truthy; reflexivity.
Qed.

Lemma output_bind_lift {A B} (m : prog A) (f : A -> res B) :
  output (bind m (fun a => lift (f a))) = output m.
Proof.
  destruct m as [out [a | c | | | ]]; cbn; try reflexivity.
  apply app_nil_r.
Qed.

(** ** What a call does *)

Lemma outcome_bind_ok {A B} (m : prog A) (k : A -> prog B) (a : A) :
  outcome m = Ok a -> outcome (bind m k) = outcome (k a).
Proof.
  destruct m as [out r]. unfold outcome. cbn [snd]. intros ->.
  unfold bind. destruct (k a). reflexivity.
Qed.

Lemma valid_accepted (r13 r23 r12 : float) :
  valid_input r13 r23 r12 -> accepted r13 r23 r12.
Proof.
  intros (H13 & H23 & H12). repeat split; apply in_unit_in_range; assumption.
Qed.

(** A call that fails the range check has printed the error line and nothing
    else. *)
Lemma calc_exit (sq : float -> float) (r13 r23 r12 : float) (verb : bool)
    (out : list line) (c : Z) :
  check_range r13 r23 r12 = (out, SysExit c) ->
  calc_acyclic_causal_rel_3x3 sq r13 r23 r12 verb = (out, SysExit c).
Proof.
  intros H. unfold calc_acyclic_causal_rel_3x3, build. rewrite H. reflexivity.
Qed.

(** The value of an accepted call. *)
Lemma calc_closed (sq : float -> float)
    (r13 r23 r12 : float) (verb : bool) :
  accepted r13 r23 r12 ->
  outcome (calc_acyclic_causal_rel_3x3 sq r13 r23 r12 verb) =
  Ok [VStr "roi_2 -> roi_3"; VStr "roi_2 -> roi_1"; VStr "roi_3 -> roi_1";
      VNum r23; VNum (deconf sq r12 r23 r13); VNum (deconf sq r13 r23 r12)].
Proof.
  intros (H13 & H23 & H12). unfold calc_acyclic_causal_rel_3x3.
  rewrite (outcome_bind_ok _ _ _ (build_closed sq r13 r23 r12 verb H13 H23 H12)).
  reflexivity.
Qed.

(** The four ways a call can go. *)
Lemma calc_cases (sq : float -> float)
    (r13 r23 r12 : float) (verb : bool) :
  let run := calc_acyclic_causal_rel_3x3 sq r13 r23 r12 verb in
  (out_of_range r13 = true /\ run = ([LRangeError "r13" r13], SysExit (-1))) \/
  (out_of_range r23 = true /\ run = ([LRangeError "r23" r23], SysExit (-1))) \/
  (out_of_range r12 = true /\ run = ([LRangeError "r12" r12], SysExit (-1))) \/
  (accepted r13 r23 r12 /\ exists l, outcome run = Ok l).
Proof.
  cbv zeta. pose proof (check_range_eq r13 r23 r12) as H.
  destruct (out_of_range r13) eqn:H13.
  { left. split; [reflexivity | apply calc_exit, H]. }
  destruct (out_of_range r23) eqn:H23.
  { right; left. split; [reflexivity | apply calc_exit, H]. }
  destruct (out_of_range r12) eqn:H12.
  { right; right; left. split; [reflexivity | apply calc_exit, H]. }
  right; right; right. split; [repeat split; assumption|].
  eexists. apply calc_closed. repeat split; assumption.
Qed.

Lemma six_cases (pp : Z) :
  0 <= pp < 6 -> pp = 0 \/ pp = 1 \/ pp = 2 \/ pp = 3 \/ pp = 4 \/ pp = 5.
Proof. lia. Qed.

Lemma three_cases (a : Z) : 0 <= a < 3 -> a = 0 \/ a = 1 \/ a = 2.
Proof. lia. Qed.

(** What the workspace holds for each of the six permutations. *)
Lemma closed_rows (sq : float -> float)
    (r13 r23 r12 : float) (pp : Z) :
  0 <= pp < 6 ->
  exists i j k r_ij r_ik r_kj,
    permutation M_closed pp = Ok (i, j, k) /\
    get2 (R_closed r13 r23 r12) i j = Ok r_ij /\
    get2 (R_closed r13 r23 r12) i k = Ok r_ik /\
    get2 (R_closed r13 r23 r12) k j = Ok r_kj /\
    get3 (C_closed sq r13 r23 r12) pp i k = Ok r_ik /\
    get3 (C_closed sq r13 r23 r12) pp i j = Ok (deconf sq r_ij r_ik r_kj) /\
    get3 (C_closed sq r13 r23 r12) pp k j = Ok (deconf sq r_kj r_ik r_ij) /\
    In r_ij [r13; r23; r12] /\ In r_ik [r13; r23; r12] /\
    In r_kj [r13; r23; r12].
Proof.
  intros Hpp.
  destruct (six_cases pp Hpp) as [-> | [-> | [-> | [-> | [-> | ->]]]]].
  - exists 1, 2, 0, r23, r12, r13. cbn [In]. repeat split; auto.
  - exists 0, 2, 1, r13, r12, r23. cbn [In]. repeat split; auto.
  - exists 0, 1, 2, r12, r13, r23. cbn [In]. repeat split; auto.
  - exists 2, 1, 0, r23, r13, r12. cbn [In]. repeat split; auto.
  - exists 2, 0, 1, r13, r23, r12. cbn [In]. repeat split; auto.
  - exists 1, 0, 2, r12, r23, r13. cbn [In]. repeat split; auto.
Qed.

Lemma in_unit_member (r13 r23 r12 x : float) :
  valid_input r13 r23 r12 -> In x [r13; r23; r12] -> in_unit x = true.
Proof.
  intros (H13 & H23 & H12) [<- | [<- | [<- | []]]]; assumption.
Qed.

Lemma faithful_member (sq : float -> float) (r13 r23 r12 x : float) :
  sq_faithful sq r13 r23 r12 -> In x [r13; r23; r12] ->
  faithful_square x (sq x).
Proof.
  intros (H13 & H23 & H12) [<- | [<- | [<- | []]]]; assumption.
Qed.

Lemma defined_member (sq : float -> float) (r13 r23 r12 x : float) :
  sq_defined sq r13 r23 r12 -> In x [r13; r23; r12] ->
  is_nan (sq x) = false.
Proof.
  intros (H13 & H23 & H12) [<- | [<- | [<- | []]]]; assumption.
Qed.

Lemma faithful_defined (sq : float -> float) (r13 r23 r12 : float) :
  sq_faithful sq r13 r23 r12 -> sq_defined sq r13 r23 r12.
Proof.
  intros (H13 & H23 & H12).
  repeat split; eapply faithful_not_nan; eassumption.
Qed.

Lemma truthy_eqb (d : float) : truthy d = negb (d =? 0)%float.
Proof. reflexivity. Qed.

Lemma in_unit_eqb_refl (x : float) : in_unit x = true -> (x =? x)%float = true.
Proof.
  intros H. apply in_unit_finite in H. unfold is_finite, is_nan in H.
  destruct (x =? x)%float; [reflexivity | discriminate H].
Qed.

(** ** The properties of the specification *)

(** C1.  The call fails, with the error line that names the offending input
    and its value and with nothing else printed, exactly when one of [r13],
    [r23], [r12] has an absolute value strictly above [1.0]; the bounds [1.0]
    and [-1.0] are accepted; and for inputs in [[-1, 1]], with a library
    whose square of an input is a number and not a NaN, the call returns
    three labels and three finite numbers. *)
Theorem range_gate_and_finite_results (sq : float -> float)
    (r13 r23 r12 : float) (verb : bool) :
  let run := calc_acyclic_causal_rel_3x3 sq r13 r23 r12 verb in
  let rejected :=
    out_of_range r13 = true \/ out_of_range r23 = true \/
    out_of_range r12 = true in
  ((exists s r,
      run = ([LRangeError s r], SysExit (-1)) /\
      In (s, r) [("r13"%string, r13); ("r23"%string, r23); ("r12"%string, r12)] /\
      out_of_range r = true) <-> rejected) /\
  ((forall l, outcome run <> Ok l) <-> rejected) /\
  out_of_range 1 = false /\ out_of_range (-1) = false /\
  (valid_input r13 r23 r12 -> sq_defined sq r13 r23 r12 ->
   exists l,
     outcome run = Ok l /\
     List.length (labels_of l) = 3%nat /\ List.length (values_of l) = 3%nat /\
     Forall (fun x => is_finite x = true) (values_of l)).
Proof.
  cbv zeta. split; [|split; [|split; [|split]]].
  - split.
    + intros (s & r & _ & Hin & Hr). cbn [In] in Hin.
      destruct Hin as [E | [E | [E | []]]]; inversion E; subst; auto.
    + intros Hrej.
      destruct (calc_cases sq r13 r23 r12 verb)
        as [[H E] | [[H E] | [[H E] | [(H13 & H23 & H12) _]]]].
      * exists "r13"%string, r13. cbn [In]. repeat split; auto.
      * exists "r23"%string, r23. cbn [In]. repeat split; auto.
      * exists "r12"%string, r12. cbn [In]. repeat split; auto.
      * destruct Hrej as [H | [H | H]]; congruence.
  - split.
    + intros Hfail.
      destruct (calc_cases sq r13 r23 r12 verb)
        as [[H E] | [[H E] | [[H E] | [_ [l Hl]]]]]; auto.
      destruct (Hfail l Hl).
    + intros Hrej l Hl.
      destruct (calc_cases sq r13 r23 r12 verb)
        as [[H E] | [[H E] | [[H E] | [(H13 & H23 & H12) _]]]];
        try (rewrite E in Hl; discriminate Hl).
      destruct Hrej as [H | [H | H]]; congruence.
  - vm_compute. reflexivity.
  - vm_compute. reflexivity.
  - intros Hv Hd. pose proof Hv as (H13 & H23 & H12).
    destruct Hd as (D13 & D23 & D12).
    eexists. split; [apply calc_closed, valid_accepted, Hv|].
    split; [reflexivity|]. split; [reflexivity|].
    cbn [values_of flat_map app].
    repeat constructor.
    + apply in_unit_finite, H23.
    + apply deconf_finite; assumption.
    + apply deconf_finite; assumption.
Qed.

Lemma range_gate_and_finite_results_witness :
  valid_input ex9B_r13 ex9B_r23 ex9B_r12 /\
  sq_defined rounded_square ex9B_r13 ex9B_r23 ex9B_r12 /\
  exists l,
    outcome (calc_acyclic_causal_rel_3x3 rounded_square
               ex9B_r13 ex9B_r23 ex9B_r12 false) = Ok l /\
    List.length (labels_of l) = 3%nat /\ List.length (values_of l) = 3%nat /\
    Forall (fun x => is_finite x = true) (values_of l).
Proof.
  assert (Hv : valid_input ex9B_r13 ex9B_r23 ex9B_r12)
    by (repeat split; vm_compute; reflexivity).
  assert (Hd : sq_defined rounded_square ex9B_r13 ex9B_r23 ex9B_r12)
    by (repeat split; vm_compute; reflexivity).
  split; [exact Hv|]. split; [exact Hd|].
  exact (proj2 (proj2 (proj2 (proj2
           (range_gate_and_finite_results rounded_square
              ex9B_r13 ex9B_r23 ex9B_r12 false)))) Hv Hd).
Defined.

(** C2.  An accepted call returns one result set, the three labels and the
    three values of row 5, the last of the six rows of the table of
    permutations: a list of six entries, not the results of all six rows. *)
Theorem returns_last_permutation_only (sq : float -> float)
    (r13 r23 r12 : float) (verb : bool) :
  accepted r13 r23 r12 ->
  exists w i j k s1 s2 s3 c1 c2 c3,
    outcome (build sq r13 r23 r12 verb) = Ok w /\
    List.length (ws_M w) = 6%nat /\
    ws_vars w = Some (5, i, j, k) /\
    permutation (ws_M w) 5 = Ok (i, j, k) /\
    get2 (ws_S w) i k = Ok s1 /\
    get2 (ws_S w) i j = Ok s2 /\
    get2 (ws_S w) k j = Ok s3 /\
    get3 (ws_C w) 5 i k = Ok c1 /\
    get3 (ws_C w) 5 i j = Ok c2 /\
    get3 (ws_C w) 5 k j = Ok c3 /\
    outcome (calc_acyclic_causal_rel_3x3 sq r13 r23 r12 verb) =
      Ok [VStr s1; VStr s2; VStr s3; VNum c1; VNum c2; VNum c3].
Proof.
  intros Ha. pose proof Ha as (H13 & H23 & H12).
  exists (ws_closed sq r13 r23 r12), 1, 0, 2.
  do 6 eexists.
  split; [apply build_closed; assumption|].
  split; [reflexivity|]. split; [reflexivity|]. split; [reflexivity|].
  split; [reflexivity|]. split; [reflexivity|]. split; [reflexivity|].
  split; [reflexivity|]. split; [reflexivity|]. split; [reflexivity|].
  apply calc_closed, Ha.
Qed.

Lemma returns_last_permutation_only_witness :
  accepted ex9B_r13 ex9B_r23 ex9B_r12 /\
  exists w i j k s1 s2 s3 c1 c2 c3,
    outcome (build rounded_square ex9B_r13 ex9B_r23 ex9B_r12 false) = Ok w /\
    List.length (ws_M w) = 6%nat /\
    ws_vars w = Some (5, i, j, k) /\
    permutation (ws_M w) 5 = Ok (i, j, k) /\
    get2 (ws_S w) i k = Ok s1 /\
    get2 (ws_S w) i j = Ok s2 /\
    get2 (ws_S w) k j = Ok s3 /\
    get3 (ws_C w) 5 i k = Ok c1 /\
    get3 (ws_C w) 5 i j = Ok c2 /\
    get3 (ws_C w) 5 k j = Ok c3 /\
    outcome (calc_acyclic_causal_rel_3x3 rounded_square
               ex9B_r13 ex9B_r23 ex9B_r12 false) =
      Ok [VStr s1; VStr s2; VStr s3; VNum c1; VNum c2; VNum c3].
Proof.
  assert (Ha : accepted ex9B_r13 ex9B_r23 ex9B_r12)
    by (repeat split; vm_compute; reflexivity).
  split; [exact Ha|].
  exact (returns_last_permutation_only rounded_square
           ex9B_r13 ex9B_r23 ex9B_r12 false Ha).
Defined.

(** C3.  For every permutation [(i,j,k)] whose denominator
    [denom = 1 - R[i,k]**2] is not zero, the two derived edges hold
    [(R[i,j] - R[i,k]*R[k,j]) / denom] and [(R[k,j] - R[i,k]*R[i,j]) / denom],
    where the square is the library's square of [R[i,k]]: with a library
    that is faithful at the inputs, the exact square of [R[i,k]] rounded to
    one of the two binary64 numbers around it. *)
Theorem derived_edges_formula (sq : float -> float)
    (r13 r23 r12 : float) (verb : bool) :
  accepted r13 r23 r12 ->
  exists w,
    outcome (build sq r13 r23 r12 verb) = Ok w /\
    forall pp, 0 <= pp < 6 ->
    exists i j k r_ij r_ik r_kj,
      permutation (ws_M w) pp = Ok (i, j, k) /\
      get2 (ws_R w) i j = Ok r_ij /\
      get2 (ws_R w) i k = Ok r_ik /\
      get2 (ws_R w) k j = Ok r_kj /\
      let denom := (1 - sq r_ik)%float in
      ((denom =? 0)%float = false ->
       get3 (ws_C w) pp i j = Ok ((r_ij - r_ik * r_kj) / denom)%float /\
       get3 (ws_C w) pp k j = Ok ((r_kj - r_ik * r_ij) / denom)%float) /\
      (sq_faithful sq r13 r23 r12 -> faithful_square r_ik (sq r_ik)).
Proof.
  intros (H13 & H23 & H12). exists (ws_closed sq r13 r23 r12).
  split; [apply build_closed; assumption|].
  intros pp Hpp. cbn [ws_M ws_R ws_C ws_closed].
  destruct (closed_rows sq r13 r23 r12 pp Hpp)
    as (i & j & k & r_ij & r_ik & r_kj & HM & Hij & Hik & Hkj & _ & C2 & C3
        & _ & Hin & _).
  exists i, j, k, r_ij, r_ik, r_kj.
  repeat (split; [assumption|]).
  cbv zeta. split.
  - intros Hd. rewrite C2, C3. unfold deconf. cbv zeta.
    rewrite truthy_eqb, Hd. cbn [negb]. split; reflexivity.
  - intros Hf. exact (faithful_member sq r13 r23 r12 r_ik Hf Hin).
Qed.

Lemma derived_edges_formula_witness :
  accepted ex9B_r13 ex9B_r23 ex9B_r12 /\
  sq_faithful rounded_square ex9B_r13 ex9B_r23 ex9B_r12 /\
  exists w,
    outcome (build rounded_square ex9B_r13 ex9B_r23 ex9B_r12 false) = Ok w /\
    forall pp, 0 <= pp < 6 ->
    exists i j k r_ij r_ik r_kj,
      permutation (ws_M w) pp = Ok (i, j, k) /\
      get2 (ws_R w) i j = Ok r_ij /\
      get2 (ws_R w) i k = Ok r_ik /\
      get2 (ws_R w) k j = Ok r_kj /\
      let denom := (1 - rounded_square r_ik)%float in
      ((denom =? 0)%float = false ->
       get3 (ws_C w) pp i j = Ok ((r_ij - r_ik * r_kj) / denom)%float /\
       get3 (ws_C w) pp k j = Ok ((r_kj - r_ik * r_ij) / denom)%float) /\
      (sq_faithful rounded_square ex9B_r13 ex9B_r23 ex9B_r12 ->
       faithful_square r_ik (rounded_square r_ik)).
Proof.
  assert (Ha : accepted ex9B_r13 ex9B_r23 ex9B_r12)
    by (repeat split; vm_compute; reflexivity).
  assert (Hf : sq_faithful rounded_square ex9B_r13 ex9B_r23 ex9B_r12)
    by (apply rounded_square_faithful; vm_compute; reflexivity).
  split; [exact Ha|]. split; [exact Hf|].
  exact (derived_edges_formula rounded_square
           ex9B_r13 ex9B_r23 ex9B_r12 false Ha).
Defined.

(** C4.  Bridge-edge identity: for each of the six permutations [(i,j,k)]
    the bridge edge [C[pp,i,k]] holds the entry [R[i,k]] of the correlation
    matrix as it is, one of the three inputs. *)
Theorem bridge_edge_identity (sq : float -> float)
    (r13 r23 r12 : float) (verb : bool) :
  accepted r13 r23 r12 ->
  exists w,
    outcome (build sq r13 r23 r12 verb) = Ok w /\
    forall pp, 0 <= pp < 6 ->
    exists i j k r_ik,
      permutation (ws_M w) pp = Ok (i, j, k) /\
      get2 (ws_R w) i k = Ok r_ik /\
      In r_ik [r13; r23; r12] /\
      get3 (ws_C w) pp i k = Ok r_ik.
Proof.
  intros (H13 & H23 & H12). exists (ws_closed sq r13 r23 r12).
  split; [apply build_closed; assumption|].
  intros pp Hpp. cbn [ws_M ws_R ws_C ws_closed].
  destruct (closed_rows sq r13 r23 r12 pp Hpp)
    as (i & j & k & r_ij & r_ik & r_kj & HM & _ & Hik & _ & C1 & _ & _ & _ & Hin & _).
  exists i, j, k, r_ik. repeat split; assumption.
Qed.

Lemma bridge_edge_identity_witness :
  accepted ex9B_r13 ex9B_r23 ex9B_r12 /\
  exists w,
    outcome (build rounded_square ex9B_r13 ex9B_r23 ex9B_r12 false) = Ok w /\
    forall pp, 0 <= pp < 6 ->
    exists i j k r_ik,
      permutation (ws_M w) pp = Ok (i, j, k) /\
      get2 (ws_R w) i k = Ok r_ik /\
      In r_ik [ex9B_r13; ex9B_r23; ex9B_r12] /\
      get3 (ws_C w) pp i k = Ok r_ik.
Proof.
  assert (Ha : accepted ex9B_r13 ex9B_r23 ex9B_r12)
    by (repeat split; vm_compute; reflexivity).
  split; [exact Ha|].
  exact (bridge_edge_identity rounded_square
           ex9B_r13 ex9B_r23 ex9B_r12 false Ha).
Defined.

(** C5.  Degenerate denominator: for a permutation [(i,j,k)] whose
    denominator [1 - R[i,k]**2] is a zero, both derived edges hold [0.0], a
    finite number, whatever the division would have given; and for inputs in
    [[-1, 1]], with a library that is faithful at the inputs, the
    denominator is a zero exactly when [R[i,k]] is [1.0] or [-1.0]. *)
Theorem degenerate_denominator_policy (sq : float -> float)
    (r13 r23 r12 : float) (verb : bool) :
  accepted r13 r23 r12 ->
  exists w,
    outcome (build sq r13 r23 r12 verb) = Ok w /\
    forall pp, 0 <= pp < 6 ->
    exists i j k r_ik,
      permutation (ws_M w) pp = Ok (i, j, k) /\
      get2 (ws_R w) i k = Ok r_ik /\
      let denom := (1 - sq r_ik)%float in
      ((denom =? 0)%float = true ->
       get3 (ws_C w) pp i j = Ok 0%float /\
       get3 (ws_C w) pp k j = Ok 0%float /\
       is_finite 0 = true) /\
      (valid_input r13 r23 r12 -> sq_faithful sq r13 r23 r12 ->
       ((denom =? 0)%float = true <-> r_ik = 1%float \/ r_ik = (-1)%float)).
Proof.
  intros (H13 & H23 & H12). exists (ws_closed sq r13 r23 r12).
  split; [apply build_closed; assumption|].
  intros pp Hpp. cbn [ws_M ws_R ws_C ws_closed].
  destruct (closed_rows sq r13 r23 r12 pp Hpp)
    as (i & j & k & r_ij & r_ik & r_kj & HM & _ & Hik & _ & _ & C2 & C3
        & _ & Hin & _).
  exists i, j, k, r_ik.
  split; [assumption|]. split; [assumption|]. cbv zeta. split.
  - intros Hd. rewrite C2, C3. unfold deconf. cbv zeta.
    rewrite truthy_eqb, Hd. cbn [negb].
    split; [reflexivity|]. split; [reflexivity|]. vm_compute. reflexivity.
  - intros Hv Hf.
    pose proof (denom_zero_iff r_ik (sq r_ik)
                  (in_unit_member _ _ _ _ Hv Hin)
                  (faithful_member sq _ _ _ _ Hf Hin)) as Hz.
    rewrite truthy_eqb in Hz.
    destruct ((1 - sq r_ik) =? 0)%float; cbn [negb] in Hz.
    + split; [intros _; apply Hz; reflexivity | reflexivity].
    + split; [discriminate | intros H; apply Hz in H; discriminate H].
Qed.

Lemma degenerate_denominator_policy_witness :
  accepted 1 ex9B_r23 ex9B_r12 /\
  valid_input 1 ex9B_r23 ex9B_r12 /\
  sq_faithful rounded_square 1 ex9B_r23 ex9B_r12 /\
  exists w,
    outcome (build rounded_square 1 ex9B_r23 ex9B_r12 false) = Ok w /\
    forall pp, 0 <= pp < 6 ->
    exists i j k r_ik,
      permutation (ws_M w) pp = Ok (i, j, k) /\
      get2 (ws_R w) i k = Ok r_ik /\
      let denom := (1 - rounded_square r_ik)%float in
      ((denom =? 0)%float = true ->
       get3 (ws_C w) pp i j = Ok 0%float /\
       get3 (ws_C w) pp k j = Ok 0%float /\
       is_finite 0 = true) /\
      (valid_input 1 ex9B_r23 ex9B_r12 ->
       sq_faithful rounded_square 1 ex9B_r23 ex9B_r12 ->
       ((denom =? 0)%float = true <-> r_ik = 1%float \/ r_ik = (-1)%float)).
Proof.
  assert (Ha : accepted 1 ex9B_r23 ex9B_r12)
    by (repeat split; vm_compute; reflexivity).
  assert (Hv : valid_input 1 ex9B_r23 ex9B_r12)
    by (repeat split; vm_compute; reflexivity).
  assert (Hf : sq_faithful rounded_square 1 ex9B_r23 ex9B_r12)
    by (apply rounded_square_faithful; vm_compute; reflexivity).
  split; [exact Ha|]. split; [exact Hv|]. split; [exact Hf|].
  exact (degenerate_denominator_policy rounded_square
           1 ex9B_r23 ex9B_r12 false Ha).
Defined.

(** The degenerate case of the specification, run: with [r13 = 1.0], of
    which a faithful square is [1.0], the two permutations whose giver and
    bridge are ROIs 1 and 3 (rows 2 and 3) have a zero denominator and hold
    [0.0] in both derived edges, where the division would have given an
    infinity. *)
Example degenerate_r13_one (sq : float -> float) :
  faithful_square 1%float (sq 1%float) ->
  exists w,
    outcome (build sq 1 ex9B_r23 ex9B_r12 false) = Ok w /\
    permutation (ws_M w) 2 = Ok (0, 1, 2) /\
    permutation (ws_M w) 3 = Ok (2, 1, 0) /\
    get2 (ws_R w) 0 2 = Ok 1%float /\
    ((1 - sq 1%float) =? 0)%float = true /\
    get3 (ws_C w) 2 0 1 = Ok 0%float /\ get3 (ws_C w) 2 2 1 = Ok 0%float /\
    get3 (ws_C w) 3 2 1 = Ok 0%float /\ get3 (ws_C w) 3 0 1 = Ok 0%float /\
    is_infinity ((ex9B_r12 - 1 * ex9B_r23) / (1 - sq 1%float)) = true.
Proof.
  intros Hf.
  pose proof (faithful_square_one 1%float (sq 1%float) (or_introl eq_refl) Hf)
    as E.
  exists (ws_closed sq 1 ex9B_r23 ex9B_r12).
  split; [apply build_closed; vm_compute; reflexivity|].
  cbn [ws_M ws_R ws_C ws_closed].
  assert (Ht : truthy (1 - sq 1%float) = false) by (rewrite E; vm_compute; reflexivity).
  split; [reflexivity|]. split; [reflexivity|]. split; [reflexivity|].
  split; [rewrite E; vm_compute; reflexivity|].
  split; [cbv -[truthy]; rewrite Ht; reflexivity|].
  split; [cbv -[truthy]; rewrite Ht; reflexivity|].
  split; [cbv -[truthy]; rewrite Ht; reflexivity|].
  split; [cbv -[truthy]; rewrite Ht; reflexivity|].
  rewrite E. vm_compute. reflexivity.
Qed.

(** C6.  Permutation completeness: the table has six rows, each a triple of
    pairwise-distinct indices of [0..2]; the six triples are pairwise distinct;
    and each pair [{0,1}], [{0,2}], [{1,2}] is the giver and bridge (first and
    last component) of exactly two triples, one for each direction. *)
Theorem permutation_completeness (sq : float -> float)
    (r13 r23 r12 : float) (verb : bool) :
  accepted r13 r23 r12 ->
  exists w,
    outcome (build sq r13 r23 r12 verb) = Ok w /\
    List.length (ws_M w) = 6%nat /\
    List.length (triples (ws_M w)) = 6%nat /\
    NoDup (triples (ws_M w)) /\
    Forall distinct_indices (triples (ws_M w)) /\
    forall a b, 0 <= a < 3 -> 0 <= b < 3 -> a <> b ->
      pair_count a b (triples (ws_M w)) = 2%nat /\
      directed_count a b (triples (ws_M w)) = 1%nat /\
      directed_count b a (triples (ws_M w)) = 1%nat.
Proof.
  intros (H13 & H23 & H12). exists (ws_closed sq r13 r23 r12).
  split; [apply build_closed; assumption|].
  cbn [ws_M ws_closed].
  split; [reflexivity|]. split; [reflexivity|]. split; [|split].
  - change (triples M_closed)
      with [(1, 2, 0); (0, 2, 1); (0, 1, 2); (2, 1, 0); (2, 0, 1); (1, 0, 2)].
    repeat constructor; cbn [In]; intuition congruence.
  - change (triples M_closed)
      with [(1, 2, 0); (0, 2, 1); (0, 1, 2); (2, 1, 0); (2, 0, 1); (1, 0, 2)].
    repeat constructor; lia.
  - intros a b Ha Hb Hab.
    destruct (three_cases a Ha) as [-> | [-> | ->]];
      destruct (three_cases b Hb) as [-> | [-> | ->]];
      try (exfalso; apply Hab; reflexivity);
      repeat split; reflexivity.
Qed.

Lemma permutation_completeness_witness :
  accepted ex9B_r13 ex9B_r23 ex9B_r12 /\
  exists w,
    outcome (build rounded_square ex9B_r13 ex9B_r23 ex9B_r12 false) = Ok w /\
    List.length (ws_M w) = 6%nat /\
    List.length (triples (ws_M w)) = 6%nat /\
    NoDup (triples (ws_M w)) /\
    Forall distinct_indices (triples (ws_M w)) /\
    forall a b, 0 <= a < 3 -> 0 <= b < 3 -> a <> b ->
      pair_count a b (triples (ws_M w)) = 2%nat /\
      directed_count a b (triples (ws_M w)) = 1%nat /\
      directed_count b a (triples (ws_M w)) = 1%nat.
Proof.
  assert (Ha : accepted ex9B_r13 ex9B_r23 ex9B_r12)
    by (repeat split; vm_compute; reflexivity).
  split; [exact Ha|].
  exact (permutation_completeness rounded_square
           ex9B_r13 ex9B_r23 ex9B_r12 false Ha).
Defined.

(** C7.  Matrix assembly: for inputs in [[-1, 1]] the matrix [R] is 3x3, with
    [R[0,1] = r12], [R[1,2] = r23], [R[0,2] = r13]; [R[a,b]] and [R[b,a]] are
    the same number and compare equal, the diagonal is [0.0], and every
    entry off the diagonal has magnitude at most [1.0]. *)
Theorem correlation_matrix_invariant (sq : float -> float)
    (r13 r23 r12 : float) (verb : bool) :
  valid_input r13 r23 r12 ->
  exists w,
    outcome (build sq r13 r23 r12 verb) = Ok w /\
    assemble_R 3 r13 r23 r12 = Ok (ws_R w) /\
    List.length (ws_R w) = 3%nat /\
    Forall (fun row => List.length row = 3%nat) (ws_R w) /\
    get2 (ws_R w) 0 1 = Ok r12 /\
    get2 (ws_R w) 1 2 = Ok r23 /\
    get2 (ws_R w) 0 2 = Ok r13 /\
    forall a b, 0 <= a < 3 -> 0 <= b < 3 ->
    exists x y,
      get2 (ws_R w) a b = Ok x /\ get2 (ws_R w) b a = Ok y /\
      x = y /\ (x =? y)%float = true /\
      (a = b -> x = 0%float /\ (x =? 0)%float = true) /\
      (a <> b -> (abs x <=? 1)%float = true).
Proof.
  intros Hv. pose proof (valid_accepted _ _ _ Hv) as (A13 & A23 & A12).
  pose proof Hv as (H13 & H23 & H12).
  exists (ws_closed sq r13 r23 r12).
  split; [apply build_closed; assumption|].
  cbn [ws_R ws_closed].
  split; [reflexivity|]. split; [reflexivity|].
  split; [repeat constructor|].
  split; [reflexivity|]. split; [reflexivity|]. split; [reflexivity|].
  assert (Z0 : (0 =? 0)%float = true) by (vm_compute; reflexivity).
  pose proof (in_unit_eqb_refl _ H13) as E13.
  pose proof (in_unit_eqb_refl _ H23) as E23.
  pose proof (in_unit_eqb_refl _ H12) as E12.
  intros a b Ha Hb.
  destruct (three_cases a Ha) as [-> | [-> | ->]];
    destruct (three_cases b Hb) as [-> | [-> | ->]];
    (eexists; eexists;
     split; [reflexivity|]; split; [reflexivity|]; split; [reflexivity|];
     split; [assumption|]; split;
     [intros E; first [discriminate E | split; [reflexivity | assumption]]
     |intros E; first [exfalso; apply E; reflexivity | assumption]]).
Qed.

Lemma correlation_matrix_invariant_witness :
  valid_input ex9B_r13 ex9B_r23 ex9B_r12 /\
  exists w,
    outcome (build rounded_square ex9B_r13 ex9B_r23 ex9B_r12 false) = Ok w /\
    assemble_R 3 ex9B_r13 ex9B_r23 ex9B_r12 = Ok (ws_R w) /\
    List.length (ws_R w) = 3%nat /\
    Forall (fun row => List.length row = 3%nat) (ws_R w) /\
    get2 (ws_R w) 0 1 = Ok ex9B_r12 /\
    get2 (ws_R w) 1 2 = Ok ex9B_r23 /\
    get2 (ws_R w) 0 2 = Ok ex9B_r13 /\
    forall a b, 0 <= a < 3 -> 0 <= b < 3 ->
    exists x y,
      get2 (ws_R w) a b = Ok x /\ get2 (ws_R w) b a = Ok y /\
      x = y /\ (x =? y)%float = true /\
      (a = b -> x = 0%float /\ (x =? 0)%float = true) /\
      (a <> b -> (abs x <=? 1)%float = true).
Proof.
  assert (Hv : valid_input ex9B_r13 ex9B_r23 ex9B_r12)
    by (repeat split; vm_compute; reflexivity).
  split; [exact Hv|].
  exact (correlation_matrix_invariant rounded_square
           ex9B_r13 ex9B_r23 ex9B_r12 false Hv).
Defined.

(** C8, as the specification states it, fails: in the forward row of base
    index [0], which is [(0, 1, 2)], the bridge (the third component) is [2],
    not [0]; and the bridge is not the base index in every forward row. *)
Lemma forward_bridge_is_not_base :
  exists w,
    outcome (build rounded_square ex9B_r13 ex9B_r23 ex9B_r12 false) = Ok w /\
    permutation (ws_M1 w) 0 = Ok (0, 1, 2) /\
    get2 (ws_M1 w) 0 2 = Ok 2 /\
    ~ (forall b, 0 <= b < 3 -> get2 (ws_M1 w) b 2 = Ok b).
Proof.
  eexists. split; [vm_compute; reflexivity|].
  split; [reflexivity|]. split; [reflexivity|].
  intros H. specialize (H 0 ltac:(lia)). discriminate H.
Qed.

(** C8, amended.  For each base index [b] of [0..2] the forward row is
    [M1[b,c] = (c + 2*b) mod 3], read across [c = 0, 1, 2] as the triple
    [(i, j, k)] and stored as a row of the table [M]; in that triple the
    bridge [k] is [(2 + 2*b) mod 3 = 2 - b], which is the base index only for
    [b = 1]. *)
Theorem forward_permutation_rows (sq : float -> float)
    (r13 r23 r12 : float) (verb : bool) :
  accepted r13 r23 r12 ->
  exists w,
    outcome (build sq r13 r23 r12 verb) = Ok w /\
    forall b, 0 <= b < 3 ->
      (forall c, 0 <= c < 3 -> get2 (ws_M1 w) b c = Ok ((c + 2 * b) mod 3)) /\
      permutation (ws_M1 w) b =
        Ok ((0 + 2 * b) mod 3, (1 + 2 * b) mod 3, (2 + 2 * b) mod 3) /\
      (exists pp, 0 <= pp < 6 /\
         permutation (ws_M w) pp = permutation (ws_M1 w) b) /\
      get2 (ws_M1 w) b 2 = Ok (2 - b) /\
      (2 - b = b <-> b = 1).
Proof.
  intros (H13 & H23 & H12). exists (ws_closed sq r13 r23 r12).
  split; [apply build_closed; assumption|].
  cbn [ws_M ws_M1 ws_closed].
  intros b Hb. destruct (three_cases b Hb) as [-> | [-> | ->]].
  - split; [intros c Hc; destruct (three_cases c Hc) as [-> | [-> | ->]]; reflexivity|].
    split; [reflexivity|]. split; [exists 2; split; [lia | reflexivity]|].
    split; [reflexivity | lia].
  - split; [intros c Hc; destruct (three_cases c Hc) as [-> | [-> | ->]]; reflexivity|].
    split; [reflexivity|]. split; [exists 4; split; [lia | reflexivity]|].
    split; [reflexivity | lia].
  - split; [intros c Hc; destruct (three_cases c Hc) as [-> | [-> | ->]]; reflexivity|].
    split; [reflexivity|]. split; [exists 0; split; [lia | reflexivity]|].
    split; [reflexivity | lia].
Qed.

Lemma forward_permutation_rows_witness :
  accepted ex9B_r13 ex9B_r23 ex9B_r12 /\
  exists w,
    outcome (build rounded_square ex9B_r13 ex9B_r23 ex9B_r12 false) = Ok w /\
    forall b, 0 <= b < 3 ->
      (forall c, 0 <= c < 3 -> get2 (ws_M1 w) b c = Ok ((c + 2 * b) mod 3)) /\
      permutation (ws_M1 w) b =
        Ok ((0 + 2 * b) mod 3, (1 + 2 * b) mod 3, (2 + 2 * b) mod 3) /\
      (exists pp, 0 <= pp < 6 /\
         permutation (ws_M w) pp = permutation (ws_M1 w) b) /\
      get2 (ws_M1 w) b 2 = Ok (2 - b) /\
      (2 - b = b <-> b = 1).
Proof.
  assert (Ha : accepted ex9B_r13 ex9B_r23 ex9B_r12)
    by (repeat split; vm_compute; reflexivity).
  split; [exact Ha|].
  exact (forward_permutation_rows rounded_square
           ex9B_r13 ex9B_r23 ex9B_r12 false Ha).
Defined.

(** C9.  The last permutation processed, row 5 of the table, is [(1, 0, 2)]
    whatever the inputs: the returned labels are ["roi_2 -> roi_3"],
    ["roi_2 -> roi_1"], ["roi_3 -> roi_1"], and the first returned value, the
    bridge edge, is the input [r23]. *)
Theorem last_permutation_is_fixed (sq : float -> float)
    (r13 r23 r12 : float) (verb : bool) :
  accepted r13 r23 r12 ->
  exists w l,
    outcome (build sq r13 r23 r12 verb) = Ok w /\
    permutation (ws_M w) 5 = Ok (1, 0, 2) /\
    ws_vars w = Some (5, 1, 0, 2) /\
    outcome (calc_acyclic_causal_rel_3x3 sq r13 r23 r12 verb) = Ok l /\
    labels_of l = ["roi_2 -> roi_3"; "roi_2 -> roi_1"; "roi_3 -> roi_1"]%string /\
    labels_of l = [roi_label 2 3; roi_label 2 1; roi_label 3 1] /\
    nth_error (values_of l) 0 = Some r23 /\
    nth_error l 3 = Some (VNum r23).
Proof.
  intros Ha. pose proof Ha as (H13 & H23 & H12).
  exists (ws_closed sq r13 r23 r12). eexists.
  split; [apply build_closed; assumption|].
  split; [reflexivity|]. split; [reflexivity|].
  split; [apply calc_closed, Ha|].
  repeat split; reflexivity.
Qed.

Lemma last_permutation_is_fixed_witness :
  accepted ex9B_r13 ex9B_r23 ex9B_r12 /\
  exists w l,
    outcome (build rounded_square ex9B_r13 ex9B_r23 ex9B_r12 false) = Ok w /\
    permutation (ws_M w) 5 = Ok (1, 0, 2) /\
    ws_vars w = Some (5, 1, 0, 2) /\
    outcome (calc_acyclic_causal_rel_3x3 rounded_square
               ex9B_r13 ex9B_r23 ex9B_r12 false) = Ok l /\
    labels_of l = ["roi_2 -> roi_3"; "roi_2 -> roi_1"; "roi_3 -> roi_1"]%string /\
    labels_of l = [roi_label 2 3; roi_label 2 1; roi_label 3 1] /\
    nth_error (values_of l) 0 = Some ex9B_r23 /\
    nth_error l 3 = Some (VNum ex9B_r23).
Proof.
  assert (Ha : accepted ex9B_r13 ex9B_r23 ex9B_r12)
    by (repeat split; vm_compute; reflexivity).
  split; [exact Ha|].
  exact (last_permutation_is_fixed rounded_square
           ex9B_r13 ex9B_r23 ex9B_r12 false Ha).
Defined.

(** C10.  For the inputs [r13 = 0.8], [r23 = 0.75], [r12 = 0.6], with a
    library that is faithful at them, every one of the six permutations has
    a denominator strictly above zero, so both of its derived edges hold the
    quotients of the division branch; all the values are finite; and the
    call returns the one list below, the same at every call and with every
    such library, with or without [verb]. *)
Theorem example_9C_division_branch (sq : float -> float) (verb : bool) :
  sq_faithful sq ex9C_r13 ex9C_r23 ex9C_r12 ->
  exists w,
    outcome (build sq ex9C_r13 ex9C_r23 ex9C_r12 verb) = Ok w /\
    (forall pp, 0 <= pp < 6 ->
     exists i j k r_ij r_ik r_kj c_ik c_ij c_kj,
       permutation (ws_M w) pp = Ok (i, j, k) /\
       get2 (ws_R w) i j = Ok r_ij /\
       get2 (ws_R w) i k = Ok r_ik /\
       get2 (ws_R w) k j = Ok r_kj /\
       let denom := (1 - sq r_ik)%float in
       (0 <? denom)%float = true /\ truthy denom = true /\
       get3 (ws_C w) pp i k = Ok c_ik /\
       get3 (ws_C w) pp i j = Ok c_ij /\
       get3 (ws_C w) pp k j = Ok c_kj /\
       c_ij = ((r_ij - r_ik * r_kj) / denom)%float /\
       c_kj = ((r_kj - r_ik * r_ij) / denom)%float /\
       is_finite c_ik = true /\ is_finite c_ij = true /\
       is_finite c_kj = true) /\
    outcome (calc_acyclic_causal_rel_3x3 sq ex9C_r13 ex9C_r23 ex9C_r12 verb) =
      Ok [VStr "roi_2 -> roi_3"; VStr "roi_2 -> roi_1"; VStr "roi_3 -> roi_1";
          VNum 0x1.8p-1; VNum (-0x1.2492492492492p-52);
          VNum 0x1.999999999999bp-1].
Proof.
  intros Hf.
  assert (Hv : valid_input ex9C_r13 ex9C_r23 ex9C_r12)
    by (repeat split; vm_compute; reflexivity).
  pose proof (valid_accepted _ _ _ Hv) as Ha.
  pose proof Ha as (H13 & H23 & H12).
  pose proof (faithful_defined _ _ _ _ Hf) as Hd.
  assert (Hb : forall x, In x [ex9C_r13; ex9C_r23; ex9C_r12] ->
                         SF_below_one (Prim2SF x)).
  { intros x Hx.
    destruct (in_unit_cases x (in_unit_member _ _ _ _ Hv Hx))
      as [E | [E | E]]; [exfalso | exfalso | exact E];
      apply (f_equal abs) in E;
      apply (f_equal (fun y => (y =? 1)%float)) in E;
      destruct Hx as [<- | [<- | [<- | []]]]; vm_compute in E; discriminate E. }
  exists (ws_closed sq ex9C_r13 ex9C_r23 ex9C_r12).
  split; [apply build_closed; assumption|]. split.
  - intros pp Hpp. cbn [ws_M ws_R ws_C ws_closed].
    destruct (closed_rows sq ex9C_r13 ex9C_r23 ex9C_r12 pp Hpp)
      as (i & j & k & r_ij & r_ik & r_kj & HM & Hij & Hik & Hkj & C1 & C2 & C3
          & Iij & Iik & Ikj).
    destruct (denom_positive r_ik (sq r_ik) (Hb _ Iik)
                (faithful_member sq _ _ _ _ Hf Iik)) as [Hpos Ht].
    exists i, j, k, r_ij, r_ik, r_kj, r_ik,
      (deconf sq r_ij r_ik r_kj), (deconf sq r_kj r_ik r_ij).
    repeat (split; [assumption|]). cbv zeta.
    repeat (split; [assumption|]).
    split; [unfold deconf; cbv zeta; rewrite Ht; reflexivity|].
    split; [unfold deconf; cbv zeta; rewrite Ht; reflexivity|].
    split; [apply in_unit_finite, (in_unit_member _ _ _ _ Hv Iik)|].
    split; apply deconf_finite;
      try (eapply in_unit_member; eassumption);
      exact (defined_member sq _ _ _ _ Hd Iik).
  - rewrite (calc_closed sq _ _ _ verb Ha).
    assert (E : sq ex9C_r23 = 0x1.2p-1%float).
    { destruct Hf as (_ & Hf23 & _).
      apply (faithful_square_exact ex9C_r23 (sq ex9C_r23) 0x1.2p-1
               (6755399441055744, -53) (5066549580791808, -53));
        [vm_compute; reflexivity | vm_compute; reflexivity
        | vm_compute; reflexivity | vm_compute; reflexivity
        | discriminate | exact Hf23]. }
    unfold deconf. rewrite E. vm_compute. reflexivity.
Qed.

Lemma example_9C_division_branch_witness :
  sq_faithful rounded_square ex9C_r13 ex9C_r23 ex9C_r12 /\
  exists w,
    outcome (build rounded_square ex9C_r13 ex9C_r23 ex9C_r12 false) = Ok w /\
    (forall pp, 0 <= pp < 6 ->
     exists i j k r_ij r_ik r_kj c_ik c_ij c_kj,
       permutation (ws_M w) pp = Ok (i, j, k) /\
       get2 (ws_R w) i j = Ok r_ij /\
       get2 (ws_R w) i k = Ok r_ik /\
       get2 (ws_R w) k j = Ok r_kj /\
       let denom := (1 - rounded_square r_ik)%float in
       (0 <? denom)%float = true /\ truthy denom = true /\
       get3 (ws_C w) pp i k = Ok c_ik /\
       get3 (ws_C w) pp i j = Ok c_ij /\
       get3 (ws_C w) pp k j = Ok c_kj /\
       c_ij = ((r_ij - r_ik * r_kj) / denom)%float /\
       c_kj = ((r_kj - r_ik * r_ij) / denom)%float /\
       is_finite c_ik = true /\ is_finite c_ij = true /\
       is_finite c_kj = true) /\
    outcome (calc_acyclic_causal_rel_3x3 rounded_square
               ex9C_r13 ex9C_r23 ex9C_r12 false) =
      Ok [VStr "roi_2 -> roi_3"; VStr "roi_2 -> roi_1"; VStr "roi_3 -> roi_1";
          VNum 0x1.8p-1; VNum (-0x1.2492492492492p-52);
          VNum 0x1.999999999999bp-1].
Proof.
  assert (Hf : sq_faithful rounded_square ex9C_r13 ex9C_r23 ex9C_r12)
    by (apply rounded_square_faithful; vm_compute; reflexivity).
  split; [exact Hf|].
  exact (example_9C_division_branch rounded_square false Hf).
Defined.

(** ** The printed report *)

Ltac find_line :=
  cbn [In]; repeat first [left; reflexivity | right].

(** Every one of the six permutations is reported: an accepted call prints
    eighteen edge lines, the three labels of each permutation with the values
    of its three edges, while it returns those of the last one only. *)
Theorem all_permutations_reported (sq : float -> float)
    (r13 r23 r12 : float) (verb : bool) :
  accepted r13 r23 r12 ->
  exists w,
    outcome (build sq r13 r23 r12 verb) = Ok w /\
    let out := output (calc_acyclic_causal_rel_3x3 sq r13 r23 r12 verb) in
    List.length (filter is_edge_line out) = 18%nat /\
    forall pp, 0 <= pp < 6 ->
    exists i j k s1 s2 s3 c1 c2 c3,
      permutation (ws_M w) pp = Ok (i, j, k) /\
      get2 (ws_S w) i k = Ok s1 /\
      get2 (ws_S w) i j = Ok s2 /\
      get2 (ws_S w) k j = Ok s3 /\
      get3 (ws_C w) pp i k = Ok c1 /\
      get3 (ws_C w) pp i j = Ok c2 /\
      get3 (ws_C w) pp k j = Ok c3 /\
      In (LEdge s1 c1) out /\ In (LEdge s2 c2) out /\ In (LEdge s3 c3) out.
Proof.
  intros (H13 & H23 & H12). exists (ws_closed sq r13 r23 r12).
  split; [apply build_closed; assumption|].
  cbv zeta. unfold calc_acyclic_causal_rel_3x3.
  rewrite output_bind_lift, build_output by assumption.
  cbn [ws_M ws_S ws_C ws_closed].
  split; [destruct verb; reflexivity|].
  intros pp Hpp.
  destruct (six_cases pp Hpp) as [-> | [-> | [-> | [-> | [-> | ->]]]]];
    do 9 eexists;
    (split; [reflexivity|]); (split; [reflexivity|]);
    (split; [reflexivity|]); (split; [reflexivity|]);
    (split; [reflexivity|]); (split; [reflexivity|]);
    (split; [reflexivity|]);
    destruct verb; cbv [output_closed report_closed app];
    (split; [find_line | split; find_line]).
Qed.
